(** * Pipelined ALU designs (PyRTL): shallow embedding and verification

    The repository holds three PyRTL designs:
    - [counter.py]            : a fetch / decode+execute counter machine,
    - [pipelined-alu.py]      : fetch / decode / execute+writeback ALU core with
                                a stall input, forwarding and branch squash,
    - [pipelined-alu-3stg.py] : a three stage ALU fed one instruction per cycle.

    Every design is embedded as a pure function from the pre-cycle state and the
    cycle's inputs to the committed state.  Wire vectors are [Z] values, memories
    are finite maps whose missing cells read as 0. *)

From Stdlib Require Import ZArith Lia List.
From stdpp Require Import gmap.
Import ListNotations.
Open Scope Z_scope.

(** ** The PyRTL primitives used by the designs *)

Module PyRTL.

(** Assignment to a wire or register of width [w] keeps the low [w] bits. *)
Definition truncate (w x : Z) : Z := Z.land x (Z.ones w).

(** [x[lo:hi]] : the bits [lo .. hi-1] of [x]. *)
Definition slice (lo hi x : Z) : Z := Z.land (Z.shiftr x lo) (Z.ones (hi - lo)).

(** [x.zero_extended(w)] leaves the value unchanged. *)
Definition zero_extended (w x : Z) : Z := x.

(** [x.sign_extended(w)] for [x] of width [from]: the top bit of [x] is
    replicated into the bits [from .. w-1]. *)
Definition sign_extended (from w x : Z) : Z :=
  if Z.testbit x (from - 1)
  then Z.lor x (Z.shiftl (Z.ones (w - from)) from)
  else x.

(** [a + b] has one more bit than its widest operand, so it never overflows. *)
Definition add (a b : Z) : Z := a + b.

(** [a - b] on operands of width at most [w] is the [w+1] bit two's complement
    difference. *)
Definition sub (w a b : Z) : Z := truncate (w + 1) (a - b).

(** [a == b] and [a != b] are one bit wires. *)
Definition eq_wire (a b : Z) : Z := if a =? b then 1 else 0.
Definition ne_wire (a b : Z) : Z := if a =? b then 0 else 1.

(** [pyrtl.mux(sel, a, b)] with a one bit select: [a] when [sel] is 0. *)
Definition mux (sel a b : Z) : Z := if sel =? 0 then a else b.

(** [pyrtl.enum_mux(cntrl, table, default)]. *)
Fixpoint enum_mux (cntrl : Z) (table : list (Z * Z)) (default : Z) : Z :=
  match table with
  | [] => default
  | (k, v) :: rest => if cntrl =? k then v else enum_mux cntrl rest default
  end.

(** Does the enumerated dispatch have an entry for [cntrl]? *)
Definition covered (cntrl : Z) (table : list (Z * Z)) : bool :=
  existsb (fun kv => cntrl =? fst kv) table.

(** A [with pyrtl.conditional_assignment:] block for one target of width [w]:
    the first branch whose condition is high drives the target; when no branch
    fires the target gets [default] (its own value for a register, 0 for a
    wire). *)
Fixpoint conditional_assignment (w : Z) (branches : list (Z * Z)) (default : Z) : Z :=
  match branches with
  | [] => default
  | (cond, v) :: rest =>
      if cond =? 0 then conditional_assignment w rest default else truncate w v
  end.

(** [pyrtl.otherwise] is the branch that always fires. *)
Definition otherwise : Z := 1.

(** [mem[addr]] : cells never written read as 0. *)
Definition mem_read (m : gmap Z Z) (addr : Z) : Z := default 0 (m !! addr).

(** [mem[addr] <<= MemBlock.EnabledWrite(data, enable)], applied at commit. *)
Definition mem_write (m : gmap Z Z) (addr data enable : Z) : gmap Z Z :=
  if enable =? 0 then m else <[addr := data]> m.

(** A value fits a wire of width [w]. *)
Definition fits (w v : Z) : Prop := 0 <= v < 2 ^ w.

(** Every cell of a memory has an address of [aw] bits and data of [dw] bits. *)
Definition mem_fits (aw dw : Z) (m : gmap Z Z) : Prop :=
  map_Forall (fun a v => fits aw a /\ fits dw v) m.

(** A list of (width, value) pairs all fit. *)
Definition all_fit (l : list (Z * Z)) : Prop :=
  Forall (fun wv => fits (fst wv) (snd wv)) l.

(** Running a design: the trace is the list of committed states. *)
Fixpoint run {S I : Type} (step : S -> I -> S) (s : S) (inputs : list I) : list S :=
  match inputs with
  | [] => []
  | i :: rest => let s' := step s i in s' :: run step s' rest
  end.

(** The state reached after a sequence of inputs. *)
Definition final {S I : Type} (step : S -> I -> S) (s : S) (inputs : list I) : S :=
  fold_left step inputs s.

(** The two's complement reading of a [w] bit value. *)
Definition signed (w x : Z) : Z := if x <? 2 ^ (w - 1) then x else x - 2 ^ w.

End PyRTL.

Import PyRTL.

(** ** pipelined-alu.py *)

Module Alu.

Definition WIDTH : Z := 16.

Module OP.
Definition NOP : Z := 0x0.
Definition ADD : Z := 0x1.
Definition SUB : Z := 0x2.
Definition XOR : Z := 0x3.
Definition AND : Z := 0x4.
Definition OR : Z := 0x5.
Definition JUMP : Z := 0x6.
End OP.

Record state := mkState {
  pc : Z;
  imem : gmap Z Z;
  rf : gmap Z Z;
  d_inst : Z;
  d_pc : Z;
  x_rd : Z;
  x_ctrl_alu_op : Z;
  x_ctrl_branch : Z;
  x_ctrl_write : Z;
  x_alu_in1 : Z;
  x_alu_in2 : Z
}.

Section Cycle.
Variable s : state.
Variable stall : Z.

(** Stage 3: execute. *)
Definition alu_table : list (Z * Z) :=
  [ (OP.ADD, add (x_alu_in1 s) (x_alu_in2 s));
    (OP.SUB, sub WIDTH (x_alu_in1 s) (x_alu_in2 s));
    (OP.XOR, Z.lxor (x_alu_in1 s) (x_alu_in2 s));
    (OP.OR, Z.lor (x_alu_in1 s) (x_alu_in2 s));
    (OP.AND, Z.land (x_alu_in1 s) (x_alu_in2 s)) ].

Definition alu_result : Z :=
  truncate WIDTH (enum_mux (x_ctrl_alu_op s) alu_table 0).

Definition branch_taken : Z := truncate 1 (x_ctrl_branch s).
Definition branch_target : Z := truncate WIDTH alu_result.

(** Stage 1: fetch. *)
Definition d_inst_next : Z :=
  conditional_assignment WIDTH
    [ (branch_taken, 0x1000);
      (otherwise, mem_read (imem s) (pc s)) ] (d_inst s).

Definition pc_next : Z :=
  conditional_assignment WIDTH
    [ (stall, pc s);
      (branch_taken, branch_target);
      (otherwise, add (pc s) 1) ] (pc s).

Definition d_pc_next : Z := truncate WIDTH (pc s).

(** Stage 2: decode. *)
Definition nop : Z := truncate 1 (Z.lor branch_taken stall).

Definition inst_a : Z := mux nop (slice 0 4 (d_inst s)) 0.
Definition inst_b : Z := mux nop (slice 4 8 (d_inst s)) 0.
Definition inst_c : Z := mux nop (slice 8 12 (d_inst s)) 0.
Definition inst_op : Z := mux nop (slice 12 16 (d_inst s)) OP.ADD.
Definition inst_imm : Z := zero_extended WIDTH (slice 0 12 (d_inst s)).

Definition ctrl_alu_op_table : list (Z * Z) := [ (OP.JUMP, OP.ADD) ].
Definition ctrl_branch_table : list (Z * Z) := [ (OP.JUMP, 1) ].
Definition ctrl_write_table : list (Z * Z) :=
  [ (OP.ADD, 1); (OP.SUB, 1); (OP.XOR, 1); (OP.OR, 1); (OP.AND, 1) ].

Definition ctrl_alu_op : Z := truncate 4 (enum_mux inst_op ctrl_alu_op_table inst_op).
Definition ctrl_branch : Z := truncate 1 (enum_mux inst_op ctrl_branch_table 0).
Definition ctrl_write : Z := truncate 1 (enum_mux inst_op ctrl_write_table 0).

(** The forwarding conditions [(x_rd == inst_a) & (inst_a != 0)] and
    [(x_rd == inst_b) & (inst_b != 0)]. *)
Definition forward_a : Z := Z.land (eq_wire (x_rd s) inst_a) (ne_wire inst_a 0).
Definition forward_b : Z := Z.land (eq_wire (x_rd s) inst_b) (ne_wire inst_b 0).

Definition x_alu_in1_next : Z :=
  conditional_assignment WIDTH
    [ (ctrl_branch, d_pc s);
      (forward_a, alu_result);
      (otherwise, mem_read (rf s) inst_a) ] (x_alu_in1 s).

Definition x_alu_in2_next : Z :=
  conditional_assignment WIDTH
    [ (ctrl_branch, inst_imm);
      (forward_b, alu_result);
      (otherwise, mem_read (rf s) inst_b) ] (x_alu_in2 s).

Definition x_ctrl_alu_op_next : Z := truncate 4 ctrl_alu_op.
Definition x_ctrl_branch_next : Z := truncate 1 ctrl_branch.
Definition x_ctrl_write_next : Z := truncate 1 ctrl_write.
Definition x_rd_next : Z := truncate 4 inst_c.

(** Write back. *)
Definition reg_write_enable : Z :=
  truncate 1 (Z.land (x_ctrl_write s) (ne_wire (x_rd s) 0)).

Definition rf_next : gmap Z Z :=
  mem_write (rf s) (x_rd s) alu_result reg_write_enable.

(** One [sim.step({'stall': stall})]: all registers and the register file
    commit together. *)
Definition step : state :=
  {| pc := pc_next;
     imem := imem s;
     rf := rf_next;
     d_inst := d_inst_next;
     d_pc := d_pc_next;
     x_rd := x_rd_next;
     x_ctrl_alu_op := x_ctrl_alu_op_next;
     x_ctrl_branch := x_ctrl_branch_next;
     x_ctrl_write := x_ctrl_write_next;
     x_alu_in1 := x_alu_in1_next;
     x_alu_in2 := x_alu_in2_next |}.

(** The registers and the wires of a cycle, each with its declared width. *)
Definition registers : list (Z * Z) :=
  [ (WIDTH, pc s); (WIDTH, d_inst s); (WIDTH, d_pc s); (4, x_rd s);
    (4, x_ctrl_alu_op s); (1, x_ctrl_branch s); (1, x_ctrl_write s);
    (WIDTH, x_alu_in1 s); (WIDTH, x_alu_in2 s) ].

Definition wires : list (Z * Z) :=
  [ (WIDTH, alu_result); (1, branch_taken); (WIDTH, branch_target); (1, nop);
    (4, inst_a); (4, inst_b); (4, inst_c); (4, inst_op); (WIDTH, inst_imm);
    (1, ctrl_branch); (4, ctrl_alu_op); (1, ctrl_write); (1, reg_write_enable);
    (1, forward_a); (1, forward_b);
    (WIDTH + 1, add (x_alu_in1 s) (x_alu_in2 s));
    (WIDTH + 1, sub WIDTH (x_alu_in1 s) (x_alu_in2 s));
    (WIDTH, Z.lxor (x_alu_in1 s) (x_alu_in2 s));
    (WIDTH, Z.lor (x_alu_in1 s) (x_alu_in2 s));
    (WIDTH, Z.land (x_alu_in1 s) (x_alu_in2 s));
    (WIDTH + 1, add (pc s) 1);
    (WIDTH, mem_read (imem s) (pc s));
    (WIDTH, mem_read (rf s) inst_a); (WIDTH, mem_read (rf s) inst_b) ].

Definition well_formed : Prop :=
  all_fit registers /\ mem_fits WIDTH WIDTH (imem s) /\ mem_fits 4 WIDTH (rf s).

End Cycle.

(** The simulation of the source: register file [r[i] = i] for [i < 4],
    the six instruction program, all registers reset to 0. *)
Definition rf_init : gmap Z Z :=
  list_to_map (map (fun i => (i, if i <? 4 then i else 0))
                   [0; 1; 2; 3; 4; 5; 6; 7; 8; 9; 10; 11; 12; 13; 14; 15]).

Definition imem_init : gmap Z Z :=
  list_to_map [ (0, 0x1112); (1, 0x1333); (2, 0x6007);
                (3, 0x2221); (4, 0x1000); (9, 0x2121) ].

Definition reset : state :=
  {| pc := 0; imem := imem_init; rf := rf_init; d_inst := 0; d_pc := 0;
     x_rd := 0; x_ctrl_alu_op := 0; x_ctrl_branch := 0; x_ctrl_write := 0;
     x_alu_in1 := 0; x_alu_in2 := 0 |}.

Definition stalls : list Z := [0; 0; 0; 0; 0; 0; 0; 1; 1].

(** The state in which [ADD r1 r2 r1] (address 0) is in execute and
    [ADD r3 r3 r3] is in decode. *)
Definition at_first_add : state := final step reset [0; 0].

(** The state in which [JUMP 7] (address 2) is in execute, the instruction of
    address 3 in decode and the program counter at address 4. *)
Definition at_jump : state := final step reset [0; 0; 0; 0].

(** The program counter at the last address of the instruction memory. *)
Definition at_last_address : state :=
  {| pc := 0xFFFF; imem := imem_init; rf := rf_init; d_inst := 0; d_pc := 0;
     x_rd := 0; x_ctrl_alu_op := 0; x_ctrl_branch := 0; x_ctrl_write := 0;
     x_alu_in1 := 0; x_alu_in2 := 0 |}.

(** The state in which [SUB r1 r1 r2] (address 9) is in decode. *)
Definition at_sub : state := final step reset [0; 0; 0; 0; 0; 0].

(** [ADD r1 r2 r1] followed by [ADD r3 r1 r1], which reads the [r1] the first
    instruction is about to write; the state has the first in execute and the
    second in decode. *)
Definition dependent_program : gmap Z Z :=
  list_to_map [ (0, 0x1112); (1, 0x1311) ].

Definition at_dependent_add : state :=
  final step {| pc := 0; imem := dependent_program; rf := rf_init; d_inst := 0;
                d_pc := 0; x_rd := 0; x_ctrl_alu_op := 0; x_ctrl_branch := 0;
                x_ctrl_write := 0; x_alu_in1 := 0; x_alu_in2 := 0 |} [0; 0].


(** The state in which [JUMP 7] (address 2) is being fetched, and the one in
    which it is in decode. *)
Definition at_jump_fetch : state := final step reset [0; 0].
Definition at_jump_decode : state := final step reset [0; 0; 0].

(** The source program with a register instruction on the wrong path:
    address 4 holds [ADD r4 r2 r1] in place of [ADD r0 r0 r0]. *)
Definition wrong_path_program : gmap Z Z := <[4 := 0x1421]> imem_init.

Definition wrong_path_reset : state :=
  {| pc := 0; imem := wrong_path_program; rf := rf_init; d_inst := 0; d_pc := 0;
     x_rd := 0; x_ctrl_alu_op := 0; x_ctrl_branch := 0; x_ctrl_write := 0;
     x_alu_in1 := 0; x_alu_in2 := 0 |}.

(** Nine cycles with [stall] high only in the fifth, the cycle in which
    [JUMP 7] is in execute; and nine cycles without stall. *)
Definition stall_at_resolve : list Z := [0; 0; 0; 0; 1; 0; 0; 0; 0].
Definition no_stall : list Z := [0; 0; 0; 0; 0; 0; 0; 0; 0].

(** No branch is taken in any cycle of the run from [s] under [stalls]. *)
Fixpoint straight_line (s : state) (stalls : list Z) : Prop :=
  match stalls with
  | [] => True
  | stall :: rest => branch_taken s = 0 /\ straight_line (step s stall) rest
  end.

(** The number of cycles of [stalls] in which the stall input is low. *)
Definition advancing (stalls : list Z) : Z :=
  Z.of_nat (length (List.filter (fun stall => stall =? 0) stalls)).

(** The meaning of a register instruction as the file's docstring gives it:
    [op rd rs2 rs1 : rd <- (op rs1 rs2)], on 16 bit values. *)
Definition execute (op rs1 rs2 : Z) : Z :=
  if op =? OP.ADD then (rs1 + rs2) mod 2 ^ WIDTH
  else if op =? OP.SUB then (rs1 - rs2) mod 2 ^ WIDTH
  else if op =? OP.XOR then Z.lxor rs1 rs2
  else if op =? OP.OR then Z.lor rs1 rs2
  else if op =? OP.AND then Z.land rs1 rs2
  else 0.

(** The opcodes of the register instructions. *)
Definition register_op (op : Z) : bool :=
  (op =? OP.ADD) || (op =? OP.SUB) || (op =? OP.XOR) || (op =? OP.OR) || (op =? OP.AND).

End Alu.

(** ** pipelined-alu-3stg.py *)

Module Alu3.

Module ALUOp.
Definition ADD : Z := 0x0.
Definition SUB : Z := 0x1.
Definition XOR : Z := 0x2.
Definition AND : Z := 0x3.
Definition OR : Z := 0x4.
End ALUOp.

Record state := mkState {
  rf : gmap Z Z;
  in1 : Z;
  in2 : Z;
  out : Z;
  c_addr_1 : Z;
  c_addr_2 : Z;
  op_1 : Z;
  write_1 : Z;
  write_2 : Z
}.

(** The inputs of one [sim.step]. *)
Record inputs := mkInputs { inst : Z; stall : Z }.

Section Cycle.
Variable s : state.
Variable i : inputs.

(** Stage 0: decode. *)
Definition inst_a : Z := slice 0 4 (inst i).
Definition inst_b : Z := slice 4 8 (inst i).
Definition inst_c : Z := slice 8 12 (inst i).
Definition inst_op : Z := slice 12 16 (inst i).

Definition op_1_next : Z := truncate 4 inst_op.

(** Stage 1: execute. *)
Definition alu_table : list (Z * Z) :=
  [ (ALUOp.ADD, add (in1 s) (in2 s));
    (ALUOp.SUB, sub 16 (in1 s) (in2 s));
    (ALUOp.XOR, Z.lxor (in1 s) (in2 s));
    (ALUOp.OR, Z.lor (in1 s) (in2 s));
    (ALUOp.AND, Z.land (in1 s) (in2 s)) ].

Definition alu_result : Z := truncate 16 (enum_mux (op_1 s) alu_table 0).

Definition in1_next : Z :=
  conditional_assignment 16
    [ (stall i, 0);
      (eq_wire (c_addr_1 s) inst_a, alu_result);
      (eq_wire (c_addr_2 s) inst_a, out s);
      (otherwise, mem_read (rf s) inst_a) ] (in1 s).

Definition in2_next : Z :=
  conditional_assignment 16
    [ (stall i, 0);
      (eq_wire (c_addr_1 s) inst_b, alu_result);
      (eq_wire (c_addr_2 s) inst_b, out s);
      (otherwise, mem_read (rf s) inst_b) ] (in2 s).

Definition write_1_next : Z :=
  conditional_assignment 1 [ (stall i, 0); (otherwise, 1) ] (write_1 s).

Definition c_addr_1_next : Z :=
  conditional_assignment 4 [ (stall i, 0); (otherwise, inst_c) ] (c_addr_1 s).

Definition out_next : Z := truncate 16 alu_result.
Definition write_2_next : Z := truncate 1 (write_1 s).
Definition c_addr_2_next : Z := truncate 4 (c_addr_1 s).

(** Stage 2: write back. *)
Definition rf_next : gmap Z Z :=
  mem_write (rf s) (c_addr_2 s) (out s) (write_2 s).

Definition step : state :=
  {| rf := rf_next;
     in1 := in1_next;
     in2 := in2_next;
     out := out_next;
     c_addr_1 := c_addr_1_next;
     c_addr_2 := c_addr_2_next;
     op_1 := op_1_next;
     write_1 := write_1_next;
     write_2 := write_2_next |}.

Definition registers : list (Z * Z) :=
  [ (16, in1 s); (16, in2 s); (16, out s); (4, c_addr_1 s); (4, c_addr_2 s);
    (4, op_1 s); (1, write_1 s); (1, write_2 s) ].

Definition wires : list (Z * Z) :=
  [ (16, alu_result); (4, inst_a); (4, inst_b); (4, inst_c); (4, inst_op);
    (17, add (in1 s) (in2 s)); (17, sub 16 (in1 s) (in2 s));
    (16, Z.lxor (in1 s) (in2 s)); (16, Z.lor (in1 s) (in2 s));
    (16, Z.land (in1 s) (in2 s));
    (16, mem_read (rf s) inst_a); (16, mem_read (rf s) inst_b) ].

Definition well_formed : Prop := all_fit registers /\ mem_fits 4 16 (rf s).

Definition inputs_fit : Prop := fits 16 (inst i) /\ fits 1 (stall i).

End Cycle.

(** The simulation of the source: [r[i] = i], registers reset to 0. *)
Definition rf_init : gmap Z Z :=
  list_to_map (map (fun i => (i, i))
                   [0; 1; 2; 3; 4; 5; 6; 7; 8; 9; 10; 11; 12; 13; 14; 15]).

Definition reset : state :=
  {| rf := rf_init; in1 := 0; in2 := 0; out := 0; c_addr_1 := 0; c_addr_2 := 0;
     op_1 := 0; write_1 := 0; write_2 := 0 |}.

(** An instruction word with opcode 1 presented while the design is stalled. *)
Definition stalled_sub : inputs := mkInputs 0x1221 1.

Definition program : list inputs :=
  [ mkInputs 0x0112 0; mkInputs 0x0333 0; mkInputs 0x1221 0;
    mkInputs 0x1121 0; mkInputs 0x0000 1; mkInputs 0x0000 1 ].

(** The state in which the third instruction of the program, [SUB r2 r1 r2],
    is decoded while the first one, which writes [r1], is in write-back. *)
Definition at_third : state := final step reset (firstn 2 program).

(** Two consecutive instructions writing [r1]: [r1 := r2 + r1] in write-back
    and [r1 := r3 + r3] in execute. *)
Definition at_double_producer : state :=
  final step reset [ mkInputs 0x0112 0; mkInputs 0x0133 0 ].

(** An instruction reading [r1] twice: [ADD r4 r1 r1]. *)
Definition read_r1 : inputs := mkInputs 0x0411 0.

(** [ADD r0 r1 r1] writes register 0; [ADD r5 r0 r0] reads it. *)
Definition write_r0 : inputs := mkInputs 0x0011 0.
Definition read_r0 : inputs := mkInputs 0x0500 0.

(** The state in which [ADD r0 r1 r1] is in execute. *)
Definition at_r0_producer : state := final step reset [ write_r0 ].

(** One stalled cycle. *)
Definition bubble : inputs := mkInputs 0x0000 1.

(** [ADD r0 r1 r1], one stalled cycle, then [ADD r5 r0 r0]: when the reader
    is decoded the writer of [r0] is in write-back and the stalled slot is
    in execute. *)
Definition at_shadowed_producer : state := final step reset [ write_r0; bubble ].

(** The same run continued until the reader has written [r5]. *)
Definition after_shadowed_read : state :=
  final step reset [ write_r0; bubble; read_r0; bubble; bubble ].


(** The meaning of the five operations of [ALUOp] on 16 bit values; any other
    opcode gives 0. *)
Definition execute (op a b : Z) : Z :=
  if op =? ALUOp.ADD then (a + b) mod 2 ^ 16
  else if op =? ALUOp.SUB then (a - b) mod 2 ^ 16
  else if op =? ALUOp.XOR then Z.lxor a b
  else if op =? ALUOp.OR then Z.lor a b
  else if op =? ALUOp.AND then Z.land a b
  else 0.

End Alu3.

(** ** counter.py *)

Module Counter.

Definition WIDTH : Z := 8.

Module OP.
Definition NOP : Z := 0x0.
Definition INC : Z := 0x1.
Definition DEC : Z := 0x2.
Definition JUMP : Z := 0x3.
End OP.

Record state := mkState {
  pc : Z;
  imem : gmap Z Z;
  counter : Z;
  d_inst : Z;
  d_pc : Z
}.

Section Cycle.
Variable s : state.

(** Stage 2: decode and execute. *)
Definition inst_op : Z := truncate 2 (slice (WIDTH - 2) WIDTH (d_inst s)).
Definition inst_imm : Z :=
  truncate 8 (sign_extended (WIDTH - 2) WIDTH (slice 0 (WIDTH - 2) (d_inst s))).

Definition alu_table : list (Z * Z) :=
  [ (OP.INC, add (counter s) 1);
    (OP.DEC, sub WIDTH (counter s) 1);
    (OP.JUMP, add (d_pc s) inst_imm) ].

Definition alu_result : Z := truncate WIDTH (enum_mux inst_op alu_table 0).

Definition branch_taken : Z :=
  conditional_assignment 1 [ (eq_wire inst_op OP.JUMP, 1) ] 0.

Definition branch_target : Z :=
  conditional_assignment WIDTH [ (eq_wire inst_op OP.JUMP, alu_result) ] 0.

Definition counter_next : Z :=
  conditional_assignment WIDTH
    [ (Z.land (ne_wire inst_op OP.JUMP) (ne_wire inst_op OP.NOP), alu_result) ] (counter s).

(** Stage 1: fetch. *)
Definition d_inst_next : Z :=
  conditional_assignment WIDTH
    [ (branch_taken, 0x00);
      (otherwise, mem_read (imem s) (pc s)) ] (d_inst s).

Definition pc_next : Z :=
  conditional_assignment WIDTH
    [ (branch_taken, branch_target);
      (otherwise, add (pc s) 1) ] (pc s).

Definition d_pc_next : Z := truncate WIDTH (pc s).

(** One [sim.step({})]; the design has no external input. *)
Definition step (_ : unit) : state :=
  {| pc := pc_next;
     imem := imem s;
     counter := counter_next;
     d_inst := d_inst_next;
     d_pc := d_pc_next |}.

Definition registers : list (Z * Z) :=
  [ (WIDTH, pc s); (WIDTH, counter s); (WIDTH, d_inst s); (WIDTH, d_pc s) ].

Definition wires : list (Z * Z) :=
  [ (2, inst_op); (8, inst_imm); (WIDTH, alu_result); (1, branch_taken);
    (WIDTH, branch_target);
    (WIDTH + 1, add (counter s) 1); (WIDTH + 1, sub WIDTH (counter s) 1);
    (WIDTH + 1, add (d_pc s) inst_imm);
    (WIDTH + 1, add (pc s) 1);
    (WIDTH, mem_read (imem s) (pc s)) ].

Definition well_formed : Prop :=
  all_fit registers /\ mem_fits WIDTH WIDTH (imem s).

End Cycle.

(** The simulation of the source; the program is written in binary there:
    [0x40] is INC, [0x80] is DEC, [0xC3] is JUMP +3, [0x00] is NOP. *)
Definition imem_init : gmap Z Z :=
  list_to_map [ (0, 0x40); (1, 0x40); (2, 0x40);
                (3, 0x80); (4, 0xC3); (5, 0x80);
                (6, 0x80); (7, 0x40); (8, 0x40);
                (9, 0x40); (10, 0x00) ].

Definition reset : state :=
  {| pc := 0; imem := imem_init; counter := 0; d_inst := 0; d_pc := 0 |}.

(** A decrement decoded with the counter at 0, an increment decoded with the
    counter at 255. *)
Definition at_empty : state :=
  {| pc := 1; imem := imem_init; counter := 0; d_inst := 0x80; d_pc := 0 |}.

Definition at_full : state :=
  {| pc := 1; imem := imem_init; counter := 0xFF; d_inst := 0x40; d_pc := 0 |}.

(** The state in which the jump of address 4 is in decode and execute; the
    counter is 2 after three increments and one decrement. *)
Definition at_jump : state := final step reset (repeat tt 5).


(** The state in which the jump of address 4 is being fetched. *)
Definition at_jump_fetch : state := final step reset (repeat tt 4).

(** What the instruction in decode does to the counter, as the file's
    docstring gives it: [+1] for Increment, [-1] for Decrement, nothing for
    NOP and Jump. *)
Definition delta (s : state) : Z :=
  if inst_op s =? OP.INC then 1
  else if inst_op s =? OP.DEC then -1
  else 0.

(** The sum of the effects of the instructions decoded in [n] cycles. *)
Fixpoint net (s : state) (n : nat) : Z :=
  match n with
  | O => 0
  | S k => delta s + net (step s tt) k
  end.

End Counter.

(** ** Bit-vector facts *)

Section BitVectors.

Lemma truncate_mod (w x : Z) : 0 <= w -> truncate w x = x mod 2 ^ w.
Proof. intros Hw. unfold truncate. now rewrite Z.land_ones. Qed.

Lemma truncate_fits (w x : Z) : 0 <= w -> fits w (truncate w x).
Proof.
  intros Hw. rewrite truncate_mod by assumption.
  apply Z.mod_pos_bound. now apply Z.pow_pos_nonneg.
Qed.

Lemma truncate_id (w x : Z) : 0 <= w -> fits w x -> truncate w x = x.
Proof.
  intros Hw Hx. rewrite truncate_mod by assumption. now apply Z.mod_small.
Qed.

Lemma truncate_idem (w x : Z) : 0 <= w -> truncate w (truncate w x) = truncate w x.
Proof. intros Hw. apply truncate_id; [assumption | now apply truncate_fits]. Qed.

Lemma slice_fits (lo hi x : Z) : lo <= hi -> fits (hi - lo) (slice lo hi x).
Proof. intros H. apply truncate_fits. lia. Qed.

Lemma fits_bits (w x : Z) :
  0 <= w -> fits w x <-> truncate w x = x.
Proof.
  intros Hw. split; [now apply truncate_id |].
  intros <-. now apply truncate_fits.
Qed.

Lemma bitwise_fits (f : Z -> Z -> Z) (g : bool -> bool -> bool) (w a b : Z) :
  (forall x y n, Z.testbit (f x y) n = g (Z.testbit x n) (Z.testbit y n)) ->
  g false false = false ->
  0 <= w -> fits w a -> fits w b -> fits w (f a b).
Proof.
  intros Hf Hg Hw Ha Hb.
  apply fits_bits in Ha, Hb; try assumption. apply fits_bits; [assumption |].
  unfold truncate in *. apply Z.bits_inj'. intros n Hn.
  rewrite Z.land_spec, Hf, <- Ha, <- Hb, !Z.land_spec.
  destruct (Z.testbit (Z.ones w) n); [now rewrite !andb_true_r |].
  now rewrite !andb_false_r, Hg.
Qed.

Lemma lxor_fits (w a b : Z) : 0 <= w -> fits w a -> fits w b -> fits w (Z.lxor a b).
Proof. apply bitwise_fits with (g := xorb); [apply Z.lxor_spec | reflexivity]. Qed.

Lemma lor_fits (w a b : Z) : 0 <= w -> fits w a -> fits w b -> fits w (Z.lor a b).
Proof. apply bitwise_fits with (g := orb); [apply Z.lor_spec | reflexivity]. Qed.

Lemma land_fits (w a b : Z) : 0 <= w -> fits w a -> fits w b -> fits w (Z.land a b).
Proof. apply bitwise_fits with (g := andb); [apply Z.land_spec | reflexivity]. Qed.

Lemma add_fits (w a b : Z) : 0 <= w -> fits w a -> fits w b -> fits (w + 1) (add a b).
Proof.
  unfold fits, add. intros Hw Ha Hb. rewrite Z.pow_add_r by lia. lia.
Qed.

Lemma sub_fits (w a b : Z) : 0 <= w -> fits (w + 1) (sub w a b).
Proof. intros Hw. apply truncate_fits. lia. Qed.

Lemma eq_wire_fits (a b : Z) : fits 1 (eq_wire a b).
Proof. unfold eq_wire, fits. destruct (a =? b); lia. Qed.

Lemma ne_wire_fits (a b : Z) : fits 1 (ne_wire a b).
Proof. unfold ne_wire, fits. destruct (a =? b); lia. Qed.

Lemma mux_fits (w sel a b : Z) : fits w a -> fits w b -> fits w (mux sel a b).
Proof. unfold mux. now destruct (sel =? 0). Qed.

Lemma fits_1 (x : Z) : fits 1 x <-> x = 0 \/ x = 1.
Proof. unfold fits. change (2 ^ 1) with 2. lia. Qed.

Lemma conditional_assignment_fits (w : Z) (branches : list (Z * Z)) (d : Z) :
  0 <= w -> fits w d -> fits w (conditional_assignment w branches d).
Proof.
  intros Hw Hd. induction branches as [| [c v] rest IH]; simpl; [assumption |].
  destruct (c =? 0); [assumption | now apply truncate_fits].
Qed.

Lemma conditional_assignment_skip (w c v : Z) (rest : list (Z * Z)) (d : Z) :
  c = 0 ->
  conditional_assignment w ((c, v) :: rest) d = conditional_assignment w rest d.
Proof. now intros ->. Qed.

Lemma conditional_assignment_fire (w c v : Z) (rest : list (Z * Z)) (d : Z) :
  c <> 0 -> conditional_assignment w ((c, v) :: rest) d = truncate w v.
Proof. intros H. cbn [conditional_assignment]. apply Z.eqb_neq in H. now rewrite H. Qed.

Lemma enum_mux_default (cntrl : Z) (table : list (Z * Z)) (d : Z) :
  covered cntrl table = false -> enum_mux cntrl table d = d.
Proof.
  induction table as [| [k v] rest IH]; simpl; [reflexivity |].
  intros H. apply orb_false_iff in H as [-> H]. now apply IH.
Qed.

Lemma mem_read_fits (aw dw : Z) (m : gmap Z Z) (a : Z) :
  0 <= dw -> mem_fits aw dw m -> fits dw (mem_read m a).
Proof.
  intros Hw Hm. unfold mem_read. destruct (m !! a) as [v |] eqn:E; simpl.
  - now destruct (Hm a v E).
  - split; [lia | now apply Z.pow_pos_nonneg].
Qed.

Lemma mem_write_fits (aw dw : Z) (m : gmap Z Z) (a v en : Z) :
  mem_fits aw dw m -> fits aw a -> fits dw v -> mem_fits aw dw (mem_write m a v en).
Proof.
  intros Hm Ha Hv. unfold mem_write. destruct (en =? 0); [assumption |].
  now apply map_Forall_insert_2.
Qed.

Lemma mem_write_disabled (m : gmap Z Z) (a v : Z) : mem_write m a v 0 = m.
Proof. reflexivity. Qed.

Lemma mem_read_write_eq (m : gmap Z Z) (a v en : Z) :
  en <> 0 -> mem_read (mem_write m a v en) a = v.
Proof.
  intros H. unfold mem_write, mem_read. apply Z.eqb_neq in H. rewrite H.
  now rewrite lookup_insert_eq.
Qed.

Lemma mem_read_write_ne (m : gmap Z Z) (a b v en : Z) :
  a <> b -> mem_read (mem_write m a v en) b = mem_read m b.
Proof.
  intros H. unfold mem_write, mem_read. destruct (en =? 0); [reflexivity |].
  now rewrite lookup_insert_ne.
Qed.

End BitVectors.

(** ** Stall against squash on the program counter *)

Ltac fits_concrete := vm_compute; split; [discriminate | reflexivity].

(** C1 (the code departs from the claim): the [pc.next] block tests [stall]
    before [branch_taken], while the fetch and decode stages are squashed
    whatever [stall] is.  With [JUMP 7] of the source program in execute
    (program counter 4, branch target 9) a stalled cycle keeps the program
    counter at 4, loads the NOP into [d_inst] and clears the branch flag, so
    the jump is lost: the following cycles fetch addresses 4, 5, 6, 7 and
    the target 9 is never reached.  Without the stall the next program
    counter is 9. *)
Lemma C1_stalled_jump_is_lost :
  Alu.branch_taken Alu.at_jump = 1 /\
  Alu.branch_target Alu.at_jump = 9 /\
  Alu.pc Alu.at_jump = 4 /\
  Alu.pc (Alu.step Alu.at_jump 0) = 9 /\
  Alu.pc (Alu.step Alu.at_jump 1) = 4 /\
  Alu.d_inst (Alu.step Alu.at_jump 1) = 0x1000 /\
  Alu.branch_taken (Alu.step Alu.at_jump 1) = 0 /\
  map Alu.pc (run Alu.step Alu.at_jump [1; 0; 0; 0; 0]) = [4; 5; 6; 7; 8].
Proof. vm_compute. repeat split. Qed.

(** ** Forwarding *)

Lemma alu_decode_live (s : Alu.state) (stall : Z) :
  stall = 0 -> Alu.branch_taken s = 0 -> Alu.nop s stall = 0.
Proof. intros -> Hb. unfold Alu.nop. now rewrite Hb. Qed.

Lemma alu_not_jump (s : Alu.state) (stall : Z) :
  Alu.nop s stall = 0 -> slice 12 16 (Alu.d_inst s) <> Alu.OP.JUMP ->
  Alu.ctrl_branch s stall = 0.
Proof.
  intros Hn Hj. unfold Alu.ctrl_branch, Alu.inst_op, Alu.ctrl_branch_table.
  unfold mux. rewrite Hn, Z.eqb_refl. cbn [enum_mux].
  apply Z.eqb_neq in Hj. now rewrite Hj.
Qed.

Lemma alu_write_enabled (s : Alu.state) :
  Alu.reg_write_enable s = 1 -> Alu.x_rd s <> 0.
Proof.
  unfold Alu.reg_write_enable, ne_wire. intros H Hz.
  rewrite Hz, Z.land_0_r in H. discriminate H.
Qed.

Lemma alu_result_truncated (s : Alu.state) :
  truncate Alu.WIDTH (Alu.alu_result s) = Alu.alu_result s.
Proof. apply truncate_idem. unfold Alu.WIDTH. lia. Qed.

Lemma alu3_result_truncated (s : Alu3.state) :
  truncate 16 (Alu3.alu_result s) = Alu3.alu_result s.
Proof. apply truncate_idem. lia. Qed.

(** Forwarding on a destination match.  In [pipelined-alu.py] a decode-stage
    instruction that is neither squashed, stalled nor a jump, and reads the
    register the execute stage is about to write, gets [alu_result], which is
    also what the register file holds after the commit.  In
    [pipelined-alu-3stg.py] [alu_result] is selected whenever [c_addr_1]
    matches the source index, also when [c_addr_2] matches too; [out] is
    selected when [c_addr_2] matches and [c_addr_1] does not. *)
Theorem forwarding_on_destination_match :
  (forall (s : Alu.state) (stall : Z),
      stall = 0 -> Alu.branch_taken s = 0 ->
      slice 12 16 (Alu.d_inst s) <> Alu.OP.JUMP ->
      Alu.reg_write_enable s = 1 ->
      (Alu.x_rd s = slice 0 4 (Alu.d_inst s) ->
       Alu.x_alu_in1 (Alu.step s stall) = Alu.alu_result s) /\
      (Alu.x_rd s = slice 4 8 (Alu.d_inst s) ->
       Alu.x_alu_in2 (Alu.step s stall) = Alu.alu_result s) /\
      mem_read (Alu.rf (Alu.step s stall)) (Alu.x_rd s) = Alu.alu_result s) /\
  (forall (s : Alu3.state) (i : Alu3.inputs),
      Alu3.stall i = 0 -> fits 16 (Alu3.out s) ->
      (Alu3.write_1 s = 1 -> Alu3.c_addr_1 s = Alu3.inst_a i ->
       Alu3.in1 (Alu3.step s i) = Alu3.alu_result s) /\
      (Alu3.write_1 s = 1 -> Alu3.c_addr_1 s = Alu3.inst_b i ->
       Alu3.in2 (Alu3.step s i) = Alu3.alu_result s) /\
      (Alu3.write_2 s = 1 -> Alu3.c_addr_2 s = Alu3.inst_a i ->
       Alu3.c_addr_1 s <> Alu3.inst_a i ->
       Alu3.in1 (Alu3.step s i) = Alu3.out s) /\
      (Alu3.write_2 s = 1 -> Alu3.c_addr_2 s = Alu3.inst_b i ->
       Alu3.c_addr_1 s <> Alu3.inst_b i ->
       Alu3.in2 (Alu3.step s i) = Alu3.out s)).
Proof.
  split.
  - intros s stall Hs Hb Hj Hw.
    pose proof (alu_decode_live s stall Hs Hb) as Hn.
    pose proof (alu_not_jump s stall Hn Hj) as Hc.
    pose proof (alu_write_enabled s Hw) as Hrd.
    apply Z.eqb_neq in Hrd.
    repeat split.
    + intros Ha. change (Alu.x_alu_in1_next s stall = Alu.alu_result s).
      unfold Alu.x_alu_in1_next.
      rewrite conditional_assignment_skip by exact Hc.
      rewrite conditional_assignment_fire; [apply alu_result_truncated |].
      unfold Alu.forward_a, Alu.inst_a, mux. rewrite Hn, Z.eqb_refl, <- Ha.
      unfold eq_wire, ne_wire. rewrite Z.eqb_refl, Hrd. discriminate.
    + intros Hb'. change (Alu.x_alu_in2_next s stall = Alu.alu_result s).
      unfold Alu.x_alu_in2_next.
      rewrite conditional_assignment_skip by exact Hc.
      rewrite conditional_assignment_fire; [apply alu_result_truncated |].
      unfold Alu.forward_b, Alu.inst_b, mux. rewrite Hn, Z.eqb_refl, <- Hb'.
      unfold eq_wire, ne_wire. rewrite Z.eqb_refl, Hrd. discriminate.
    + change (mem_read (Alu.rf_next s) (Alu.x_rd s) = Alu.alu_result s).
      unfold Alu.rf_next. apply mem_read_write_eq. rewrite Hw. discriminate.
  - intros s i Hs Hout. repeat split.
    + intros _ Ha. change (Alu3.in1_next s i = Alu3.alu_result s).
      unfold Alu3.in1_next. rewrite conditional_assignment_skip by exact Hs.
      rewrite conditional_assignment_fire; [apply alu3_result_truncated |].
      unfold eq_wire. rewrite Ha, Z.eqb_refl. discriminate.
    + intros _ Ha. change (Alu3.in2_next s i = Alu3.alu_result s).
      unfold Alu3.in2_next. rewrite conditional_assignment_skip by exact Hs.
      rewrite conditional_assignment_fire; [apply alu3_result_truncated |].
      unfold eq_wire. rewrite Ha, Z.eqb_refl. discriminate.
    + intros _ Ha Hne. change (Alu3.in1_next s i = Alu3.out s).
      apply Z.eqb_neq in Hne.
      unfold Alu3.in1_next. rewrite conditional_assignment_skip by exact Hs.
      rewrite conditional_assignment_skip by (unfold eq_wire; now rewrite Hne).
      rewrite conditional_assignment_fire; [apply truncate_id; [lia | assumption] |].
      unfold eq_wire. rewrite Ha, Z.eqb_refl. discriminate.
    + intros _ Ha Hne. change (Alu3.in2_next s i = Alu3.out s).
      apply Z.eqb_neq in Hne.
      unfold Alu3.in2_next. rewrite conditional_assignment_skip by exact Hs.
      rewrite conditional_assignment_skip by (unfold eq_wire; now rewrite Hne).
      rewrite conditional_assignment_fire; [apply truncate_id; [lia | assumption] |].
      unfold eq_wire. rewrite Ha, Z.eqb_refl. discriminate.
Qed.

Lemma forwarding_on_destination_match_example :
  Alu.x_alu_in1 (Alu.step Alu.at_dependent_add 0)
    = Alu.alu_result Alu.at_dependent_add /\
  Alu3.in1 (Alu3.step Alu3.at_double_producer Alu3.read_r1)
    = Alu3.alu_result Alu3.at_double_producer /\
  Alu3.in1 (Alu3.step Alu3.at_third (Alu3.mkInputs 0x1221 0))
    = Alu3.out Alu3.at_third.
Proof.
  destruct forwarding_on_destination_match as [HA H3].
  split; [| split].
  - refine (proj1 (HA Alu.at_dependent_add 0 eq_refl _ _ _) _);
      vm_compute; solve [reflexivity | discriminate].
  - refine (proj1 (H3 Alu3.at_double_producer Alu3.read_r1 eq_refl _) _ _);
      vm_compute; solve [reflexivity | split; [discriminate | reflexivity]].
  - refine (proj1 (proj2 (proj2 (H3 Alu3.at_third (Alu3.mkInputs 0x1221 0) eq_refl _))) _ _ _);
      vm_compute; solve [reflexivity | discriminate | split; [discriminate | reflexivity]].
Defined.

(** C2 (the code departs from the claim): the forwarding conditions of
    [pipelined-alu-3stg.py] compare destination addresses only and do not look
    at [write_1].  A stalled slot in execute has [c_addr_1 = 0] and
    [write_1 = 0]; it is no producer, yet it matches a read of [r0] and
    supplies its zero result, ahead of the real producer of [r0] sitting in
    write-back.  After [ADD r0 r1 r1], one stalled cycle and [ADD r5 r0 r0],
    the reader is staged 0 although [out = 2] is about to be written to
    [r0], and [r5] ends as 0 where [r0 + r0] is 4. *)
Lemma C2_stalled_slot_shadows_producer :
  Alu3.stall Alu3.read_r0 = 0 /\
  Alu3.inst_a Alu3.read_r0 = 0 /\
  Alu3.write_1 Alu3.at_shadowed_producer = 0 /\
  Alu3.write_2 Alu3.at_shadowed_producer = 1 /\
  Alu3.c_addr_2 Alu3.at_shadowed_producer = Alu3.inst_a Alu3.read_r0 /\
  Alu3.out Alu3.at_shadowed_producer = 2 /\
  Alu3.in1 (Alu3.step Alu3.at_shadowed_producer Alu3.read_r0) = 0 /\
  Alu3.in2 (Alu3.step Alu3.at_shadowed_producer Alu3.read_r0) = 0 /\
  mem_read (Alu3.rf (Alu3.step Alu3.at_shadowed_producer Alu3.read_r0)) 0 = 2 /\
  mem_read (Alu3.rf Alu3.after_shadowed_read) 0 = 2 /\
  mem_read (Alu3.rf Alu3.after_shadowed_read) 5 = 0.
Proof. vm_compute. repeat split. Qed.

(** ** Stall *)

Lemma final_snoc {S I : Type} (step : S -> I -> S) (s : S) (l : list I) (i : I) :
  final step s (l ++ [i]) = step (final step s l) i.
Proof. unfold final. now rewrite fold_left_app. Qed.

Lemma truncate_1_cases (x : Z) : truncate 1 x = 0 \/ truncate 1 x = 1.
Proof. apply fits_1. apply truncate_fits. lia. Qed.

Lemma truncate_1_lor_l (x : Z) : truncate 1 (Z.lor 1 x) = 1.
Proof.
  unfold truncate. rewrite Z.land_lor_distr_l.
  destruct (truncate_1_cases x) as [H | H]; unfold truncate in H; now rewrite H.
Qed.

Lemma truncate_1_lor_r (x : Z) : truncate 1 (Z.lor x 1) = 1.
Proof. rewrite Z.lor_comm. apply truncate_1_lor_l. Qed.

Lemma alu_stalled (s : Alu.state) (stall : Z) : stall = 1 -> Alu.nop s stall = 1.
Proof. intros ->. apply truncate_1_lor_r. Qed.

Lemma alu_squashed (s : Alu.state) (stall : Z) :
  Alu.branch_taken s = 1 -> Alu.nop s stall = 1.
Proof. intros H. unfold Alu.nop. rewrite H. apply truncate_1_lor_l. Qed.

(** A stalled or squashed decode stage hands [ADD r0 r0 r0] to execute. *)
Lemma alu_bubble (s : Alu.state) (stall : Z) :
  Alu.nop s stall = 1 ->
  Alu.x_rd (Alu.step s stall) = 0 /\
  Alu.x_ctrl_branch (Alu.step s stall) = 0 /\
  Alu.x_ctrl_alu_op (Alu.step s stall) = Alu.OP.ADD /\
  Alu.x_ctrl_write (Alu.step s stall) = 1.
Proof.
  intros H. cbn [Alu.step Alu.x_rd Alu.x_ctrl_branch Alu.x_ctrl_alu_op Alu.x_ctrl_write].
  unfold Alu.x_rd_next, Alu.x_ctrl_branch_next, Alu.x_ctrl_alu_op_next,
    Alu.x_ctrl_write_next, Alu.ctrl_branch, Alu.ctrl_alu_op, Alu.ctrl_write,
    Alu.inst_c, Alu.inst_op.
  rewrite H. repeat split.
Qed.

(** With destination 0 in execute nothing is written. *)
Lemma alu_no_write (s : Alu.state) :
  Alu.x_rd s = 0 ->
  Alu.reg_write_enable s = 0 /\ forall stall, Alu.rf (Alu.step s stall) = Alu.rf s.
Proof.
  intros H. assert (E : Alu.reg_write_enable s = 0).
  { unfold Alu.reg_write_enable, ne_wire. rewrite H. cbn [Z.eqb].
    now rewrite Z.land_0_r. }
  split; [exact E |]. intros stall. cbn [Alu.step Alu.rf]. unfold Alu.rf_next.
  now rewrite E.
Qed.

Lemma alu_stall_holds_pc (s : Alu.state) (n : nat) :
  fits Alu.WIDTH (Alu.pc s) -> Alu.pc (final Alu.step s (repeat 1 n)) = Alu.pc s.
Proof.
  intros Hpc. induction n as [| n IH]; [reflexivity |].
  cbn [repeat]. rewrite repeat_cons, final_snoc. cbn [Alu.step Alu.pc].
  unfold Alu.pc_next.
  rewrite conditional_assignment_fire by discriminate. rewrite IH.
  apply truncate_id; [unfold Alu.WIDTH; lia | assumption].
Qed.

Lemma alu3_stalled (s : Alu3.state) (i : Alu3.inputs) :
  Alu3.stall i = 1 ->
  Alu3.in1 (Alu3.step s i) = 0 /\ Alu3.in2 (Alu3.step s i) = 0 /\
  Alu3.write_1 (Alu3.step s i) = 0 /\ Alu3.c_addr_1 (Alu3.step s i) = 0.
Proof.
  intros H. cbn [Alu3.step Alu3.in1 Alu3.in2 Alu3.write_1 Alu3.c_addr_1].
  unfold Alu3.in1_next, Alu3.in2_next, Alu3.write_1_next, Alu3.c_addr_1_next.
  rewrite H. repeat split.
Qed.

Lemma alu3_no_write (s : Alu3.state) :
  Alu3.write_2 s = 0 -> forall i, Alu3.rf (Alu3.step s i) = Alu3.rf s.
Proof.
  intros H i. cbn [Alu3.step Alu3.rf]. unfold Alu3.rf_next. now rewrite H.
Qed.

(** C3 (as stated, refuted): a register-file write fires in a stalled cycle,
    and [d_inst] neither holds nor takes a bubble.  In the source program,
    stalling the cycle in which [ADD r1 r2 r1] is in execute still writes
    [r1] (1 becomes 3), and [d_inst] goes from [0x1333] to [0x6007]. *)
Lemma C3_stall_counterexample :
  Alu.reg_write_enable Alu.at_first_add = 1 /\
  mem_read (Alu.rf Alu.at_first_add) 1 = 1 /\
  mem_read (Alu.rf (Alu.step Alu.at_first_add 1)) 1 = 3 /\
  Alu.d_inst Alu.at_first_add = 0x1333 /\
  Alu.d_inst (Alu.step Alu.at_first_add 1) = 0x6007.
Proof. vm_compute. repeat split. Qed.

(** C3 (amended): while [stall = 1] is held, the program counter of
    [pipelined-alu.py] is unchanged and after every stalled cycle the execute
    registers hold the bubble [ADD r0 r0 r0], so no register-file write fires
    in any stalled cycle after the first.  In [pipelined-alu-3stg.py] every
    stalled cycle clears [in1], [in2], [write_1] and [c_addr_1], and no
    register-file write fires in any stalled cycle after the second. *)
Theorem C3_stall_holds_pc_and_injects_bubbles :
  (forall (s : Alu.state) (n : nat),
      fits Alu.WIDTH (Alu.pc s) ->
      let s' := final Alu.step s (repeat 1 (S n)) in
      Alu.pc s' = Alu.pc s /\
      Alu.x_rd s' = 0 /\ Alu.x_ctrl_branch s' = 0 /\
      Alu.x_ctrl_alu_op s' = Alu.OP.ADD /\
      Alu.reg_write_enable s' = 0 /\
      forall stall, Alu.rf (Alu.step s' stall) = Alu.rf s') /\
  (forall (s : Alu3.state) (before : list Alu3.inputs) (i : Alu3.inputs),
      Alu3.stall i = 1 ->
      let s' := final Alu3.step s (before ++ [i]) in
      Alu3.in1 s' = 0 /\ Alu3.in2 s' = 0 /\
      Alu3.write_1 s' = 0 /\ Alu3.c_addr_1 s' = 0) /\
  (forall (s : Alu3.state) (before : list Alu3.inputs) (i1 i2 : Alu3.inputs),
      Alu3.stall i1 = 1 -> Alu3.stall i2 = 1 ->
      let s' := final Alu3.step s (before ++ [i1; i2]) in
      Alu3.write_2 s' = 0 /\ Alu3.c_addr_2 s' = 0 /\
      forall j, Alu3.rf (Alu3.step s' j) = Alu3.rf s').
Proof.
  split; [| split].
  - intros s n Hpc s'. split; [apply alu_stall_holds_pc; assumption |].
    subst s'. cbn [repeat]. rewrite repeat_cons, final_snoc.
    set (t := final Alu.step s (repeat 1 n)).
    destruct (alu_bubble t 1 (alu_stalled t 1 eq_refl)) as (Hrd & Hb & Hop & _).
    destruct (alu_no_write _ Hrd) as [He Hrf]. auto.
  - intros s before i Hi s'. subst s'. rewrite final_snoc.
    now apply alu3_stalled.
  - intros s before i1 i2 H1 H2 s'. subst s'.
    change [i1; i2] with ([i1] ++ [i2]). rewrite app_assoc, !final_snoc.
    set (t := final Alu3.step s before).
    destruct (alu3_stalled t i1 H1) as (_ & _ & Hw & Hc).
    assert (Hw2 : Alu3.write_2 (Alu3.step (Alu3.step t i1) i2) = 0).
    { cbn [Alu3.step Alu3.write_2]. unfold Alu3.write_2_next.
      cbn [Alu3.step Alu3.write_1] in Hw |- *. now rewrite Hw. }
    split; [exact Hw2 |]. split.
    + cbn [Alu3.step Alu3.c_addr_2]. unfold Alu3.c_addr_2_next.
      cbn [Alu3.step Alu3.c_addr_1] in Hc |- *. now rewrite Hc.
    + now apply alu3_no_write.
Qed.

Lemma C3_stall_holds_pc_and_injects_bubbles_witness :
  Alu.pc (final Alu.step Alu.at_first_add (repeat 1 2)) = Alu.pc Alu.at_first_add /\
  Alu3.in1 (final Alu3.step Alu3.reset (firstn 4 Alu3.program ++ [Alu3.mkInputs 0 1])) = 0 /\
  Alu3.write_2 (final Alu3.step Alu3.reset
                  (firstn 4 Alu3.program ++ [Alu3.mkInputs 0 1; Alu3.mkInputs 0 1])) = 0.
Proof.
  destruct C3_stall_holds_pc_and_injects_bubbles as (HA & H3a & H3b).
  split; [| split].
  - refine (proj1 (HA Alu.at_first_add 1%nat _)). fits_concrete.
  - refine (proj1 (H3a Alu3.reset (firstn 4 Alu3.program) (Alu3.mkInputs 0 1) _)).
    reflexivity.
  - refine (proj1 (H3b Alu3.reset (firstn 4 Alu3.program)
                       (Alu3.mkInputs 0 1) (Alu3.mkInputs 0 1) _ _)); reflexivity.
Defined.

(** ** Branch squash *)

Lemma alu_decode_of_nop (s : Alu.state) (stall : Z) :
  Alu.d_inst s = 0x1000 ->
  Alu.x_rd (Alu.step s stall) = 0 /\ Alu.x_ctrl_branch (Alu.step s stall) = 0.
Proof.
  intros H. cbn [Alu.step Alu.x_rd Alu.x_ctrl_branch].
  unfold Alu.x_rd_next, Alu.x_ctrl_branch_next, Alu.ctrl_branch, Alu.inst_c,
    Alu.inst_op, mux.
  rewrite H. destruct (Alu.nop s stall =? 0); split; reflexivity.
Qed.

(** What the squash does in the two cycles after a taken branch: whatever
    [stall] is, [d_inst] is forced to the NOP [0x1000] and the execute
    registers to the bubble [ADD r0 r0 r0], and neither of the next two
    cycles writes the register file; with [stall] low in the resolving cycle
    the next program counter is the branch target. *)
Lemma branch_squash_next_two_cycles (s : Alu.state) (stall stall' : Z) :
  Alu.branch_taken s = 1 ->
  let s1 := Alu.step s stall in
  let s2 := Alu.step s1 stall' in
  (stall = 0 -> Alu.pc s1 = Alu.branch_target s) /\
  Alu.d_inst s1 = 0x1000 /\
  Alu.x_rd s1 = 0 /\ Alu.x_ctrl_branch s1 = 0 /\ Alu.x_ctrl_alu_op s1 = Alu.OP.ADD /\
  Alu.reg_write_enable s1 = 0 /\ Alu.rf s2 = Alu.rf s1 /\
  Alu.x_rd s2 = 0 /\ Alu.x_ctrl_branch s2 = 0 /\
  Alu.reg_write_enable s2 = 0 /\
  (forall stall'', Alu.rf (Alu.step s2 stall'') = Alu.rf s2).
Proof.
  intros Hb s1 s2.
  destruct (alu_bubble s stall (alu_squashed s stall Hb)) as (Hrd & Hbr & Hop & _).
  fold s1 in Hrd, Hbr, Hop.
  destruct (alu_no_write s1 Hrd) as [He1 Hrf1].
  assert (Hd : Alu.d_inst s1 = 0x1000).
  { subst s1. cbn [Alu.step Alu.d_inst]. unfold Alu.d_inst_next.
    rewrite conditional_assignment_fire by (rewrite Hb; discriminate).
    reflexivity. }
  destruct (alu_decode_of_nop s1 stall' Hd) as [Hrd2 Hbr2]. fold s2 in Hrd2, Hbr2.
  destruct (alu_no_write s2 Hrd2) as [He2 Hrf2].
  repeat split; try assumption.
  - intros ->. subst s1. cbn [Alu.step Alu.pc]. unfold Alu.pc_next.
    rewrite conditional_assignment_skip by reflexivity.
    rewrite conditional_assignment_fire by (rewrite Hb; discriminate).
    unfold Alu.branch_target. apply truncate_idem. unfold Alu.WIDTH. lia.
  - apply Hrf1.
Qed.

(** C4 (the code departs from the claim): when [stall] is high in the cycle
    in which the branch resolves, the program counter is not overridden and
    the wrong path runs.  On the source program with [ADD r4 r2 r1] at
    address 4, [JUMP 7] at address 2 resolves in the fifth cycle.  Without
    stall the program counter goes 1, 2, 3, 4, 9, 10, and [r4] keeps its 0.
    With [stall] high in the fifth cycle the program counter holds 4, the
    target 9 is never loaded, address 4 is fetched again and its instruction
    reaches write-back: [r4] ends as 5. *)
Lemma C4_stalled_resolve_runs_wrong_path :
  map Alu.pc (run Alu.step Alu.wrong_path_reset Alu.no_stall)
    = [1; 2; 3; 4; 9; 10; 11; 12; 13] /\
  mem_read (Alu.rf (final Alu.step Alu.wrong_path_reset Alu.no_stall)) 4 = 0 /\
  Alu.branch_taken (final Alu.step Alu.wrong_path_reset [0; 0; 0; 0]) = 1 /\
  Alu.branch_target (final Alu.step Alu.wrong_path_reset [0; 0; 0; 0]) = 9 /\
  map Alu.pc (run Alu.step Alu.wrong_path_reset Alu.stall_at_resolve)
    = [1; 2; 3; 4; 4; 5; 6; 7; 8] /\
  mem_read (Alu.rf (final Alu.step Alu.wrong_path_reset Alu.stall_at_resolve)) 4 = 5.
Proof. vm_compute. repeat split. Qed.

(** ** The zero register *)

(** C5 (as stated, refuted): in [pipelined-alu-3stg.py] register 0 is an
    ordinary register.  With [ADD r0 r1 r1] in execute, [ADD r5 r0 r0] reads
    source index 0 and gets the forwarded result 2; the write to address 0 is
    not suppressed and the register file ends with [r0 = 2]. *)
Lemma C5_zero_register_counterexample :
  Alu3.inst_a Alu3.read_r0 = 0 /\
  eq_wire (Alu3.c_addr_1 Alu3.at_r0_producer) (Alu3.inst_a Alu3.read_r0) = 1 /\
  Alu3.in1 (Alu3.step Alu3.at_r0_producer Alu3.read_r0) = 2 /\
  mem_read (Alu3.rf Alu3.reset) 0 = 0 /\
  mem_read (Alu3.rf (final Alu3.step Alu3.reset
                       [Alu3.write_r0; Alu3.read_r0; Alu3.read_r0])) 0 = 2.
Proof. vm_compute. repeat split. Qed.

Lemma alu_rf0_step (s : Alu.state) (stall : Z) :
  mem_read (Alu.rf s) 0 = 0 -> mem_read (Alu.rf (Alu.step s stall)) 0 = 0.
Proof.
  intros H. cbn [Alu.step Alu.rf]. unfold Alu.rf_next.
  destruct (Z.eq_dec (Alu.x_rd s) 0) as [E | E].
  - destruct (alu_no_write s E) as [-> _]. now rewrite mem_write_disabled.
  - now rewrite mem_read_write_ne.
Qed.

Lemma alu_rf0_run (stalls : list Z) (s : Alu.state) :
  mem_read (Alu.rf s) 0 = 0 ->
  Forall (fun t => mem_read (Alu.rf t) 0 = 0) (run Alu.step s stalls).
Proof.
  revert s. induction stalls as [| stall rest IH]; intros s H; cbn [run].
  - constructor.
  - constructor; [| apply IH]; now apply alu_rf0_step.
Qed.

(** C5 (amended): in [pipelined-alu.py] a source index of 0 never selects the
    forwarded result, a write aimed at address 0 is suppressed, so a register
    file with [rf[0] = 0] keeps it over every run, and an instruction that is
    not a jump and reads register 0 gets 0 staged into the ALU input.
    [pipelined-alu-3stg.py] has no zero register: a result destined to
    register 0 is forwarded to a reader of index 0 and written to address 0
    like any other. *)
Theorem C5_alu_zero_register :
  (forall (s : Alu.state) (stall : Z),
      (Alu.inst_a s stall = 0 -> Alu.forward_a s stall = 0) /\
      (Alu.inst_b s stall = 0 -> Alu.forward_b s stall = 0) /\
      (Alu.x_rd s = 0 -> Alu.reg_write_enable s = 0)) /\
  (forall (s : Alu.state) (stalls : list Z),
      mem_read (Alu.rf s) 0 = 0 ->
      Forall (fun t => mem_read (Alu.rf t) 0 = 0) (run Alu.step s stalls)) /\
  (forall (s : Alu.state) (stall : Z),
      mem_read (Alu.rf s) 0 = 0 -> Alu.ctrl_branch s stall = 0 ->
      (Alu.inst_a s stall = 0 -> Alu.x_alu_in1 (Alu.step s stall) = 0) /\
      (Alu.inst_b s stall = 0 -> Alu.x_alu_in2 (Alu.step s stall) = 0)) /\
  (forall (s : Alu3.state) (i : Alu3.inputs),
      (Alu3.stall i = 0 -> Alu3.write_1 s = 1 -> Alu3.c_addr_1 s = 0 ->
       Alu3.inst_a i = 0 -> Alu3.in1 (Alu3.step s i) = Alu3.alu_result s) /\
      (Alu3.write_2 s = 1 -> Alu3.c_addr_2 s = 0 ->
       mem_read (Alu3.rf (Alu3.step s i)) 0 = Alu3.out s)).
Proof.
  split; [| split; [| split]].
  - intros s stall. repeat split.
    + intros H. unfold Alu.forward_a, ne_wire. rewrite H. apply Z.land_0_r.
    + intros H. unfold Alu.forward_b, ne_wire. rewrite H. apply Z.land_0_r.
    + intros H. now apply alu_no_write.
  - intros s stalls H. now apply alu_rf0_run.
  - intros s stall H0 Hc. split; intros H.
    + cbn [Alu.step Alu.x_alu_in1]. unfold Alu.x_alu_in1_next.
      rewrite conditional_assignment_skip by exact Hc.
      rewrite conditional_assignment_skip
        by (unfold Alu.forward_a, ne_wire; rewrite H; apply Z.land_0_r).
      rewrite conditional_assignment_fire by discriminate.
      now rewrite H, H0.
    + cbn [Alu.step Alu.x_alu_in2]. unfold Alu.x_alu_in2_next.
      rewrite conditional_assignment_skip by exact Hc.
      rewrite conditional_assignment_skip
        by (unfold Alu.forward_b, ne_wire; rewrite H; apply Z.land_0_r).
      rewrite conditional_assignment_fire by discriminate.
      now rewrite H, H0.
  - intros s i. split.
    + intros Hs _ Hc Ha. cbn [Alu3.step Alu3.in1]. unfold Alu3.in1_next.
      rewrite conditional_assignment_skip by exact Hs.
      rewrite conditional_assignment_fire; [apply alu3_result_truncated |].
      rewrite Hc, Ha. discriminate.
    + intros Hw Hc. cbn [Alu3.step Alu3.rf]. unfold Alu3.rf_next.
      rewrite Hw, Hc. now apply mem_read_write_eq.
Qed.

Lemma C5_alu_zero_register_witness :
  Alu.forward_a Alu.reset 0 = 0 /\
  Forall (fun t => mem_read (Alu.rf t) 0 = 0) (run Alu.step Alu.reset Alu.stalls) /\
  Alu.x_alu_in1 (Alu.step Alu.reset 0) = 0.
Proof.
  destruct C5_alu_zero_register as (Hf & Hrun & Hin & _).
  split; [| split].
  - apply (Hf Alu.reset 0). vm_compute. reflexivity.
  - apply (Hrun Alu.reset Alu.stalls). vm_compute. reflexivity.
  - apply (Hin Alu.reset 0); vm_compute; reflexivity.
Defined.

(** ** Enumerated dispatch *)

Lemma alu_inst_op_fits (s : Alu.state) (stall : Z) : fits 4 (Alu.inst_op s stall).
Proof.
  unfold Alu.inst_op. apply mux_fits.
  - exact (slice_fits 12 16 _ ltac:(lia)).
  - vm_compute. split; [discriminate | reflexivity].
Qed.

(** C6 (as stated, refuted): the dispatch of [ctrl_alu_op] has the single
    entry JUMP and the declared default [inst_op]; with [SUB r1 r1 r2] in
    decode the opcode 2 is not covered and the output is 2, not 0. *)
Lemma C6_default_counterexample :
  covered (Alu.inst_op Alu.at_sub 0) Alu.ctrl_alu_op_table = false /\
  Alu.ctrl_alu_op Alu.at_sub 0 = 2.
Proof. vm_compute. split; reflexivity. Qed.

(** C6 (amended): a control value not covered by an enumerated dispatch
    selects the declared default.  The default is the all-zero result for
    [alu_result] in the three designs and for [ctrl_branch] and [ctrl_write];
    it is the decoded opcode itself for [ctrl_alu_op]. *)
Theorem C6_unmapped_control_value_default :
  (forall s : Alu.state,
      covered (Alu.x_ctrl_alu_op s) (Alu.alu_table s) = false ->
      Alu.alu_result s = 0) /\
  (forall s : Alu3.state,
      covered (Alu3.op_1 s) (Alu3.alu_table s) = false ->
      Alu3.alu_result s = 0) /\
  (forall s : Counter.state,
      covered (Counter.inst_op s) (Counter.alu_table s) = false ->
      Counter.alu_result s = 0) /\
  (forall (s : Alu.state) (stall : Z),
      covered (Alu.inst_op s stall) Alu.ctrl_branch_table = false ->
      Alu.ctrl_branch s stall = 0) /\
  (forall (s : Alu.state) (stall : Z),
      covered (Alu.inst_op s stall) Alu.ctrl_write_table = false ->
      Alu.ctrl_write s stall = 0) /\
  (forall (s : Alu.state) (stall : Z),
      covered (Alu.inst_op s stall) Alu.ctrl_alu_op_table = false ->
      Alu.ctrl_alu_op s stall = Alu.inst_op s stall).
Proof.
  repeat split.
  - intros s H. unfold Alu.alu_result. now rewrite enum_mux_default.
  - intros s H. unfold Alu3.alu_result. now rewrite enum_mux_default.
  - intros s H. unfold Counter.alu_result. now rewrite enum_mux_default.
  - intros s stall H. unfold Alu.ctrl_branch. now rewrite enum_mux_default.
  - intros s stall H. unfold Alu.ctrl_write. now rewrite enum_mux_default.
  - intros s stall H. unfold Alu.ctrl_alu_op. rewrite enum_mux_default by exact H.
    apply truncate_id; [lia | apply alu_inst_op_fits].
Qed.

Lemma C6_unmapped_control_value_default_witness :
  Alu.alu_result Alu.reset = 0 /\
  Counter.alu_result Counter.reset = 0 /\
  Alu.ctrl_alu_op Alu.at_sub 0 = Alu.inst_op Alu.at_sub 0.
Proof.
  destruct C6_unmapped_control_value_default as (HA & _ & HC & _ & _ & Hop).
  split; [| split].
  - apply (HA Alu.reset). vm_compute. reflexivity.
  - apply (HC Counter.reset). vm_compute. reflexivity.
  - apply (Hop Alu.at_sub 0). vm_compute. reflexivity.
Defined.

(** ** The counter register holds *)

(** C8: in [counter.py] a cycle whose decoded opcode is NOP or JUMP takes no
    branch of the [counter.next] block, and the counter after commit is the
    counter before the cycle. *)
Theorem C8_counter_self_holds (s : Counter.state) :
  Counter.inst_op s = Counter.OP.NOP \/ Counter.inst_op s = Counter.OP.JUMP ->
  Counter.counter (Counter.step s tt) = Counter.counter s.
Proof.
  intros H. cbn [Counter.step Counter.counter]. unfold Counter.counter_next.
  apply conditional_assignment_skip. destruct H as [-> | ->]; reflexivity.
Qed.

Lemma C8_counter_self_holds_witness :
  Counter.counter (Counter.step Counter.at_jump tt) = Counter.counter Counter.at_jump.
Proof.
  apply (C8_counter_self_holds Counter.at_jump). right. vm_compute. reflexivity.
Defined.

(** ** The opcode register of the three stage design *)

Lemma alu3_zero_operands (s : Alu3.state) :
  Alu3.in1 s = 0 -> Alu3.in2 s = 0 -> Alu3.alu_result s = 0.
Proof.
  intros H1 H2. unfold Alu3.alu_result, Alu3.alu_table. rewrite H1, H2.
  cbn [enum_mux].
  repeat match goal with |- context [if ?c then _ else _] => destruct c end;
    reflexivity.
Qed.

(** C10: in [pipelined-alu-3stg.py] the opcode register is loaded from
    [inst[12:16]] in every cycle, stalled or not.  A stalled slot is
    neutralised by clearing [in1], [in2], [write_1] and [c_addr_1]: whatever
    opcode it carries its ALU result is 0, and the cycle in which it reaches
    write-back has [write_2 = 0] and leaves the register file unchanged. *)
Theorem C10_stall_does_not_gate_op_1 (s : Alu3.state) (i j k : Alu3.inputs) :
  Alu3.op_1 (Alu3.step s i) = slice 12 16 (Alu3.inst i) /\
  (Alu3.stall i = 1 ->
   let s1 := Alu3.step s i in
   let s2 := Alu3.step s1 j in
   Alu3.in1 s1 = 0 /\ Alu3.in2 s1 = 0 /\
   Alu3.write_1 s1 = 0 /\ Alu3.c_addr_1 s1 = 0 /\
   Alu3.alu_result s1 = 0 /\
   Alu3.write_2 s2 = 0 /\ Alu3.rf (Alu3.step s2 k) = Alu3.rf s2).
Proof.
  split.
  - cbn [Alu3.step Alu3.op_1]. unfold Alu3.op_1_next, Alu3.inst_op.
    apply truncate_id; [lia | exact (slice_fits 12 16 _ ltac:(lia))].
  - intros Hi s1 s2.
    destruct (alu3_stalled s i Hi) as (H1 & H2 & Hw & Hc). fold s1 in H1, H2, Hw, Hc.
    assert (Hw2 : Alu3.write_2 s2 = 0).
    { subst s2. cbn [Alu3.step Alu3.write_2]. unfold Alu3.write_2_next.
      now rewrite Hw. }
    repeat split; try assumption.
    + now apply alu3_zero_operands.
    + now apply alu3_no_write.
Qed.

Lemma C10_stall_does_not_gate_op_1_witness :
  Alu3.op_1 (Alu3.step Alu3.at_third Alu3.stalled_sub) = 1 /\
  Alu3.alu_result (Alu3.step Alu3.at_third Alu3.stalled_sub) = 0.
Proof.
  pose proof (C10_stall_does_not_gate_op_1 Alu3.at_third Alu3.stalled_sub
                Alu3.stalled_sub Alu3.stalled_sub) as [Hop H].
  split.
  - rewrite Hop. vm_compute. reflexivity.
  - apply H. vm_compute. reflexivity.
Defined.

(** ** Width closure *)

Ltac width := first [lia | vm_compute; discriminate].

Ltac split_fits H :=
  unfold all_fit in H;
  repeat (apply Forall_cons in H; destruct H as [? H]);
  cbn [fst snd] in *.

Ltac build_fits :=
  unfold all_fit;
  repeat (apply Forall_cons_2; [cbn [fst snd] |]); [.. | apply Forall_nil_2].

Ltac fits_step :=
  first
    [ assumption
    | apply truncate_fits; width
    | apply conditional_assignment_fits; [width |]
    | apply mux_fits
    | apply sub_fits; width
    | apply add_fits; [width | |]
    | apply lxor_fits; [width | |]
    | apply lor_fits; [width | |]
    | apply land_fits; [width | |]
    | apply eq_wire_fits
    | apply ne_wire_fits
    | eapply mem_read_fits; [width | eassumption]
    | fits_concrete ].

Lemma alu_wires_fit (s : Alu.state) (stall : Z) :
  Alu.well_formed s -> all_fit (Alu.wires s stall).
Proof.
  intros (Hr & Hi & Hrf). unfold Alu.registers in Hr. split_fits Hr.
  unfold Alu.wires. build_fits; repeat fits_step.
Qed.

Lemma alu_step_well_formed (s : Alu.state) (stall : Z) :
  Alu.well_formed s -> Alu.well_formed (Alu.step s stall).
Proof.
  intros (Hr & Hi & Hrf). unfold Alu.registers in Hr. split_fits Hr.
  split; [| split].
  - unfold Alu.registers. cbn [Alu.step Alu.pc Alu.d_inst Alu.d_pc Alu.x_rd
      Alu.x_ctrl_alu_op Alu.x_ctrl_branch Alu.x_ctrl_write Alu.x_alu_in1
      Alu.x_alu_in2].
    build_fits; repeat fits_step.
  - exact Hi.
  - cbn [Alu.step Alu.rf]. unfold Alu.rf_next.
    apply mem_write_fits; repeat fits_step.
Qed.

Lemma alu3_wires_fit (s : Alu3.state) (i : Alu3.inputs) :
  Alu3.well_formed s -> all_fit (Alu3.wires s i).
Proof.
  intros (Hr & Hrf). unfold Alu3.registers in Hr. split_fits Hr.
  unfold Alu3.wires. build_fits;
    try exact (slice_fits 0 4 _ ltac:(lia));
    try exact (slice_fits 4 8 _ ltac:(lia));
    try exact (slice_fits 8 12 _ ltac:(lia));
    try exact (slice_fits 12 16 _ ltac:(lia));
    try (apply (add_fits 16); [lia | assumption | assumption]);
    try (apply (sub_fits 16); lia);
    repeat fits_step.
Qed.

Lemma alu3_step_well_formed (s : Alu3.state) (i : Alu3.inputs) :
  Alu3.well_formed s -> Alu3.well_formed (Alu3.step s i).
Proof.
  intros (Hr & Hrf). unfold Alu3.registers in Hr. split_fits Hr.
  split.
  - unfold Alu3.registers. cbn [Alu3.step Alu3.in1 Alu3.in2 Alu3.out
      Alu3.c_addr_1 Alu3.c_addr_2 Alu3.op_1 Alu3.write_1 Alu3.write_2].
    build_fits; repeat fits_step.
  - cbn [Alu3.step Alu3.rf]. unfold Alu3.rf_next.
    apply mem_write_fits; repeat fits_step.
Qed.

Lemma counter_wires_fit (s : Counter.state) :
  Counter.well_formed s -> all_fit (Counter.wires s).
Proof.
  intros (Hr & Hi). unfold Counter.registers in Hr. split_fits Hr.
  unfold Counter.wires. build_fits; repeat fits_step.
Qed.

Lemma counter_step_well_formed (s : Counter.state) (u : unit) :
  Counter.well_formed s -> Counter.well_formed (Counter.step s u).
Proof.
  intros (Hr & Hi). unfold Counter.registers in Hr. split_fits Hr.
  split.
  - unfold Counter.registers.
    cbn [Counter.step Counter.pc Counter.counter Counter.d_inst Counter.d_pc].
    build_fits; repeat fits_step.
  - exact Hi.
Qed.

Lemma run_invariant {S I : Type} (step : S -> I -> S) (P : S -> Prop) :
  (forall s i, P s -> P (step s i)) ->
  forall inputs s, P s -> Forall P (run step s inputs).
Proof.
  intros Hstep inputs. induction inputs as [| i rest IH]; intros s Hs; cbn [run].
  - constructor.
  - constructor; [| apply IH]; now apply Hstep.
Qed.

Lemma truncate_narrow (w x : Z) :
  0 <= w -> truncate w (truncate (w + 1) x) = truncate w x.
Proof.
  intros Hw. unfold truncate. rewrite <- Z.land_assoc. f_equal.
  apply Z.bits_inj'. intros n Hn. rewrite Z.land_spec.
  destruct (Z.ltb_spec n w) as [Hlt | Hge].
  - rewrite !Z.ones_spec_low by lia. reflexivity.
  - rewrite (Z.ones_spec_high w) by lia. apply andb_false_r.
Qed.

Lemma alu_reset_well_formed : Alu.well_formed Alu.reset.
Proof.
  split; [| split].
  - unfold Alu.registers. build_fits; fits_concrete.
  - unfold mem_fits, Alu.reset, Alu.imem, Alu.imem_init. cbn [list_to_map foldr uncurry].
    repeat (apply map_Forall_insert_2; [split; fits_concrete |]).
    apply map_Forall_empty.
  - unfold mem_fits, Alu.reset, Alu.rf, Alu.rf_init. cbn [map list_to_map foldr uncurry].
    repeat (apply map_Forall_insert_2; [split; fits_concrete |]).
    apply map_Forall_empty.
Qed.

Lemma alu3_reset_well_formed : Alu3.well_formed Alu3.reset.
Proof.
  split.
  - unfold Alu3.registers. build_fits; fits_concrete.
  - unfold mem_fits, Alu3.reset, Alu3.rf, Alu3.rf_init. cbn [map list_to_map foldr uncurry].
    repeat (apply map_Forall_insert_2; [split; fits_concrete |]).
    apply map_Forall_empty.
Qed.

Lemma counter_reset_well_formed : Counter.well_formed Counter.reset.
Proof.
  split.
  - unfold Counter.registers. build_fits; fits_concrete.
  - unfold mem_fits, Counter.reset, Counter.imem, Counter.imem_init.
    cbn [list_to_map foldr uncurry].
    repeat (apply map_Forall_insert_2; [split; fits_concrete |]).
    apply map_Forall_empty.
Qed.

(** C7: every assignment to a register or wire keeps the low bits of the
    declared width.  From a state whose registers and memory cells fit their
    widths, every state of every run fits again, and so does every wire of
    every cycle, the intermediate sums and differences at one bit more than
    their operands.  In particular [pc + 1], [counter + 1] and [counter - 1]
    wrap modulo [2 ^ WIDTH]. *)
Theorem C7_width_closure :
  (forall (s : Alu.state) (stalls : list Z),
      Alu.well_formed s ->
      Forall (fun t => Alu.well_formed t /\ forall stall, all_fit (Alu.wires t stall))
             (s :: run Alu.step s stalls)) /\
  (forall (s : Alu3.state) (inputs : list Alu3.inputs),
      Alu3.well_formed s ->
      Forall (fun t => Alu3.well_formed t /\ forall i, all_fit (Alu3.wires t i))
             (s :: run Alu3.step s inputs)) /\
  (forall (s : Counter.state) (inputs : list unit),
      Counter.well_formed s ->
      Forall (fun t => Counter.well_formed t /\ all_fit (Counter.wires t))
             (s :: run Counter.step s inputs)) /\
  (forall (s : Alu.state) (stall : Z),
      stall = 0 -> Alu.branch_taken s = 0 ->
      Alu.pc (Alu.step s stall) = (Alu.pc s + 1) mod 2 ^ Alu.WIDTH) /\
  (forall s : Counter.state,
      Counter.branch_taken s = 0 ->
      Counter.pc (Counter.step s tt) = (Counter.pc s + 1) mod 2 ^ Counter.WIDTH) /\
  (forall s : Counter.state,
      Counter.inst_op s = Counter.OP.INC ->
      Counter.counter (Counter.step s tt)
        = (Counter.counter s + 1) mod 2 ^ Counter.WIDTH) /\
  (forall s : Counter.state,
      Counter.inst_op s = Counter.OP.DEC ->
      Counter.counter (Counter.step s tt)
        = (Counter.counter s - 1) mod 2 ^ Counter.WIDTH).
Proof.
  repeat split.
  - intros s stalls Hs.
    apply Forall_impl with (P := Alu.well_formed).
    + constructor; [assumption |].
      now apply run_invariant; [apply alu_step_well_formed |].
    + intros t Ht. split; [assumption |]. intros stall. now apply alu_wires_fit.
  - intros s inputs Hs.
    apply Forall_impl with (P := Alu3.well_formed).
    + constructor; [assumption |].
      now apply run_invariant; [apply alu3_step_well_formed |].
    + intros t Ht. split; [assumption |]. intros i. now apply alu3_wires_fit.
  - intros s inputs Hs.
    apply Forall_impl with (P := Counter.well_formed).
    + constructor; [assumption |].
      now apply run_invariant; [apply counter_step_well_formed |].
    + intros t Ht. split; [assumption |]. now apply counter_wires_fit.
  - intros s stall -> Hb. cbn [Alu.step Alu.pc]. unfold Alu.pc_next.
    rewrite conditional_assignment_skip by reflexivity.
    rewrite conditional_assignment_skip by exact Hb.
    rewrite conditional_assignment_fire by discriminate.
    apply truncate_mod. width.
  - intros s Hb. cbn [Counter.step Counter.pc]. unfold Counter.pc_next.
    rewrite conditional_assignment_skip by exact Hb.
    rewrite conditional_assignment_fire by discriminate.
    apply truncate_mod. width.
  - intros s Hop. cbn [Counter.step Counter.counter].
    unfold Counter.counter_next, Counter.alu_result, Counter.alu_table.
    rewrite Hop. rewrite conditional_assignment_fire by discriminate.
    cbn [enum_mux]. change (Counter.OP.INC =? Counter.OP.INC) with true. cbv iota.
    rewrite truncate_idem by width. apply truncate_mod. width.
  - intros s Hop. cbn [Counter.step Counter.counter].
    unfold Counter.counter_next, Counter.alu_result, Counter.alu_table.
    rewrite Hop. rewrite conditional_assignment_fire by discriminate.
    cbn [enum_mux]. change (Counter.OP.DEC =? Counter.OP.INC) with false.
    change (Counter.OP.DEC =? Counter.OP.DEC) with true. cbv iota.
    rewrite truncate_idem by width. unfold sub.
    rewrite truncate_narrow by width. apply truncate_mod. width.
Qed.

Lemma C7_width_closure_witness :
  Forall (fun t => Alu.well_formed t /\ forall stall, all_fit (Alu.wires t stall))
         (Alu.reset :: run Alu.step Alu.reset Alu.stalls) /\
  Forall (fun t => Alu3.well_formed t /\ forall i, all_fit (Alu3.wires t i))
         (Alu3.reset :: run Alu3.step Alu3.reset Alu3.program) /\
  Forall (fun t => Counter.well_formed t /\ all_fit (Counter.wires t))
         (Counter.reset :: run Counter.step Counter.reset (repeat tt 11)) /\
  Alu.pc (Alu.step Alu.at_last_address 0) = 0 /\
  Counter.counter (Counter.step Counter.at_full tt) = 0 /\
  Counter.counter (Counter.step Counter.at_empty tt) = 0xFF.
Proof.
  destruct C7_width_closure as (HA & H3 & HC & Hpc & _ & Hinc & Hdec).
  split; [| split; [| split; [| split; [| split]]]].
  - apply (HA Alu.reset Alu.stalls). exact alu_reset_well_formed.
  - apply (H3 Alu3.reset Alu3.program). exact alu3_reset_well_formed.
  - apply (HC Counter.reset (repeat tt 11)). exact counter_reset_well_formed.
  - rewrite (Hpc Alu.at_last_address 0); vm_compute; reflexivity.
  - rewrite (Hinc Counter.at_full); vm_compute; reflexivity.
  - rewrite (Hdec Counter.at_empty); vm_compute; reflexivity.
Defined.

(** ** Sign extension and instruction fields *)

Lemma fits_high_bits (w x n : Z) : 0 <= w -> fits w x -> w <= n -> Z.testbit x n = false.
Proof.
  intros Hw Hx Hn. apply fits_bits in Hx; [| assumption]. rewrite <- Hx.
  unfold truncate. rewrite Z.land_spec, Z.ones_spec_high by lia. apply andb_false_r.
Qed.

Lemma top_bit (w x : Z) :
  0 < w -> fits w x -> Z.testbit x (w - 1) = negb (x <? 2 ^ (w - 1)).
Proof.
  intros Hw [H0 H1]. rewrite Z.testbit_eqb by lia.
  assert (E : 2 ^ w = 2 * 2 ^ (w - 1)).
  { replace w with (Z.succ (w - 1)) at 1 by lia. apply Z.pow_succ_r. lia. }
  assert (P : 0 < 2 ^ (w - 1)) by (apply Z.pow_pos_nonneg; lia).
  destruct (Z.ltb_spec x (2 ^ (w - 1))) as [Hlt | Hge]; cbn [negb].
  - rewrite Z.div_small by lia. reflexivity.
  - replace (x / 2 ^ (w - 1)) with 1; [reflexivity |].
    apply Z.div_unique with (r := x - 2 ^ (w - 1)); lia.
Qed.

Lemma lor_high_ones (from k x : Z) :
  0 <= from -> 0 <= k -> fits from x ->
  Z.lor x (Z.shiftl (Z.ones k) from) = x + (2 ^ k - 1) * 2 ^ from.
Proof.
  intros Hf Hk Hx.
  assert (D : Z.land x (Z.shiftl (Z.ones k) from) = 0).
  { apply Z.bits_inj'. intros n Hn. rewrite Z.land_spec, Z.bits_0.
    destruct (Z.ltb_spec n from) as [Hlt | Hge].
    - rewrite Z.shiftl_spec_low by assumption. apply andb_false_r.
    - rewrite (fits_high_bits from x n) by assumption. reflexivity. }
  rewrite <- Z.lxor_lor, <- Z.add_nocarry_lxor by assumption.
  rewrite Z.shiftl_mul_pow2, Z.ones_equiv by assumption. f_equal; lia.
Qed.

Lemma sign_extended_signed (from w x : Z) :
  0 < from <= w -> fits from x ->
  sign_extended from w x = signed from x mod 2 ^ w.
Proof.
  intros Hw Hx. unfold sign_extended, signed.
  rewrite top_bit by (assumption || lia).
  assert (Pf : 0 < 2 ^ from) by (apply Z.pow_pos_nonneg; lia).
  assert (E : 2 ^ w = 2 ^ (w - from) * 2 ^ from).
  { rewrite <- Z.pow_add_r by lia. f_equal. lia. }
  assert (Pk : 0 < 2 ^ (w - from)) by (apply Z.pow_pos_nonneg; lia).
  destruct Hx as [H0 H1].
  destruct (Z.ltb_spec x (2 ^ (from - 1))) as [Hlt | Hge]; cbn [negb].
  - symmetry. apply Z.mod_small. nia.
  - rewrite lor_high_ones by (lia || (split; assumption)).
    apply Z.mod_unique with (q := -1); nia.
Qed.

Lemma fits_weaken (w w' x : Z) : 0 <= w <= w' -> fits w x -> fits w' x.
Proof.
  intros Hw [H0 H1]. split; [assumption |].
  apply Z.lt_le_trans with (2 ^ w); [assumption |].
  apply Z.pow_le_mono_r; lia.
Qed.

Lemma final_cons {S I : Type} (step : S -> I -> S) (s : S) (i : I) (l : list I) :
  final step s (i :: l) = final step (step s i) l.
Proof. reflexivity. Qed.

(** ** The counter machine *)

Lemma counter_inst_imm_signed (s : Counter.state) :
  Counter.inst_imm s = signed 6 (slice 0 6 (Counter.d_inst s)) mod 2 ^ 8.
Proof.
  unfold Counter.inst_imm.
  change (Counter.WIDTH - 2) with 6. change Counter.WIDTH with 8.
  rewrite sign_extended_signed; [| lia | exact (slice_fits 0 6 _ ltac:(lia))].
  rewrite truncate_mod by lia. apply Z.mod_mod. lia.
Qed.

(** X1: The immediate of [counter.py] is the two's complement reading of the low
    six bits of the instruction, modulo [2 ^ 8]: it lies below 256, and a
    field with bit 5 set stands for the field minus 64. *)
Theorem counter_immediate_is_twos_complement (s : Counter.state) :
  Counter.inst_imm s = signed 6 (slice 0 6 (Counter.d_inst s)) mod 2 ^ 8 /\
  (slice 0 6 (Counter.d_inst s) < 32 ->
   Counter.inst_imm s = slice 0 6 (Counter.d_inst s)) /\
  (32 <= slice 0 6 (Counter.d_inst s) ->
   Counter.inst_imm s = slice 0 6 (Counter.d_inst s) + 192).
Proof.
  pose proof (slice_fits 0 6 (Counter.d_inst s) ltac:(lia)) as [H0 H1].
  change (2 ^ (6 - 0)) with 64 in H1.
  rewrite counter_inst_imm_signed. unfold signed. change (2 ^ (6 - 1)) with 32.
  change (2 ^ 6) with 64. change (2 ^ 8) with 256.
  repeat split.
  - intros Hlt. apply Z.ltb_lt in Hlt. rewrite Hlt. apply Z.mod_small. lia.
  - intros Hge. apply Z.ltb_ge in Hge. rewrite Hge.
    symmetry. apply Z.mod_unique with (q := -1); lia.
Qed.

Lemma counter_immediate_is_twos_complement_witness :
  Counter.inst_imm Counter.at_jump = 3.
Proof.
  destruct (counter_immediate_is_twos_complement Counter.at_jump) as (_ & H & _).
  rewrite H; vm_compute; reflexivity.
Defined.

Lemma counter_inst_op_range (s : Counter.state) : 0 <= Counter.inst_op s < 4.
Proof. exact (truncate_fits 2 _ ltac:(lia)). Qed.

Lemma counter_step_delta (s : Counter.state) :
  fits 8 (Counter.counter s) ->
  Counter.counter (Counter.step s tt) = (Counter.counter s + Counter.delta s) mod 2 ^ 8.
Proof.
  intros Hc. cbn [Counter.step Counter.counter].
  unfold Counter.counter_next, Counter.alu_result, Counter.alu_table, Counter.delta.
  pose proof (counter_inst_op_range s) as Hop.
  assert (Hcases : Counter.inst_op s = 0 \/ Counter.inst_op s = 1 \/
                   Counter.inst_op s = 2 \/ Counter.inst_op s = 3) by lia.
  change Counter.WIDTH with 8.
  destruct Hcases as [E | [E | [E | E]]]; rewrite E.
  - rewrite conditional_assignment_skip by reflexivity.
    cbn [conditional_assignment]. change (0 =? Counter.OP.INC) with false.
    change (0 =? Counter.OP.DEC) with false. cbv iota.
    rewrite Z.add_0_r. symmetry. apply Z.mod_small. exact Hc.
  - rewrite conditional_assignment_fire by discriminate.
    cbn [enum_mux]. change (1 =? Counter.OP.INC) with true. cbv iota.
    rewrite truncate_idem by lia. apply truncate_mod. lia.
  - rewrite conditional_assignment_fire by discriminate.
    cbn [enum_mux]. change (2 =? Counter.OP.INC) with false.
    change (2 =? Counter.OP.DEC) with true. cbv iota.
    rewrite truncate_idem by lia. unfold sub. rewrite truncate_narrow by lia.
    apply truncate_mod. lia.
  - rewrite conditional_assignment_skip by reflexivity.
    cbn [conditional_assignment]. change (3 =? Counter.OP.INC) with false.
    change (3 =? Counter.OP.DEC) with false. cbv iota.
    rewrite Z.add_0_r. symmetry. apply Z.mod_small. exact Hc.
Qed.

(** X2: Over any number of cycles of [counter.py] the counter is its initial value
    plus the sum of the effects of the instructions decoded in those cycles,
    modulo [2 ^ 8]; one cycle moves it by at most one. *)
Theorem counter_accumulates_decoded_instructions (s : Counter.state) (n : nat) :
  fits 8 (Counter.counter s) ->
  Counter.counter (final Counter.step s (repeat tt n))
    = (Counter.counter s + Counter.net s n) mod 2 ^ 8 /\
  -1 <= Counter.delta s <= 1.
Proof.
  intros Hc. split.
  - revert s Hc. induction n as [| n IH]; intros s Hc.
    + cbn [repeat Counter.net]. unfold final. cbn [fold_left].
      rewrite Z.add_0_r. symmetry. apply Z.mod_small. exact Hc.
    + cbn [repeat Counter.net]. rewrite final_cons.
      rewrite IH.
      * rewrite counter_step_delta by exact Hc.
        rewrite Zplus_mod_idemp_l. f_equal. lia.
      * rewrite counter_step_delta by exact Hc.
        apply Z.mod_pos_bound. lia.
  - unfold Counter.delta.
    destruct (Counter.inst_op s =? Counter.OP.INC); [lia |].
    destruct (Counter.inst_op s =? Counter.OP.DEC); lia.
Qed.

Lemma counter_accumulates_decoded_instructions_witness :
  Counter.counter (final Counter.step Counter.reset (repeat tt 11))
    = (Counter.counter Counter.reset + Counter.net Counter.reset 11) mod 2 ^ 8.
Proof.
  apply (counter_accumulates_decoded_instructions Counter.reset 11). fits_concrete.
Defined.

(** X3: A Jump fetched from address [p] of [counter.py] sets the program counter
    to [p] plus its two's complement immediate, modulo [2 ^ 8], two cycles
    later.  The instruction fetched behind it is replaced by NOP: the counter
    is the same after the jump's cycle and after the squashed slot's cycle,
    and execution continues at the target. *)
Theorem counter_jump_transfers_control (s0 : Counter.state) :
  fits 8 (Counter.pc s0) -> mem_fits 8 8 (Counter.imem s0) ->
  Counter.branch_taken s0 = 0 ->
  let w := mem_read (Counter.imem s0) (Counter.pc s0) in
  slice 6 8 w = Counter.OP.JUMP ->
  let s1 := Counter.step s0 tt in
  let s2 := Counter.step s1 tt in
  let s3 := Counter.step s2 tt in
  Counter.pc s2 = (Counter.pc s0 + signed 6 (slice 0 6 w)) mod 2 ^ 8 /\
  Counter.d_inst s2 = 0 /\
  Counter.counter s2 = Counter.counter s1 /\
  Counter.counter s3 = Counter.counter s1 /\
  Counter.pc s3 = (Counter.pc s2 + 1) mod 2 ^ 8.
Proof.
  intros Hpc Him Hb w Hj s1 s2 s3.
  assert (Hw : fits 8 w) by (apply (mem_read_fits 8 8); [lia | assumption]).
  assert (Hd : Counter.d_inst s1 = w).
  { subst s1. cbn [Counter.step Counter.d_inst]. unfold Counter.d_inst_next.
    rewrite conditional_assignment_skip by exact Hb.
    rewrite conditional_assignment_fire by discriminate.
    apply truncate_id; [width | exact Hw]. }
  assert (Hdpc : Counter.d_pc s1 = Counter.pc s0).
  { subst s1. cbn [Counter.step Counter.d_pc]. unfold Counter.d_pc_next.
    apply truncate_id; [width | exact Hpc]. }
  assert (Hop : Counter.inst_op s1 = 3).
  { unfold Counter.inst_op. rewrite Hd.
    change (slice (Counter.WIDTH - 2) Counter.WIDTH w) with (slice 6 8 w).
    rewrite Hj. reflexivity. }
  assert (Hbt : Counter.branch_taken s1 = 1).
  { unfold Counter.branch_taken. rewrite Hop. reflexivity. }
  assert (Hpc2 : Counter.pc s2 = (Counter.pc s0 + signed 6 (slice 0 6 w)) mod 2 ^ 8).
  { subst s2. cbn [Counter.step Counter.pc]. unfold Counter.pc_next.
    rewrite conditional_assignment_fire by (rewrite Hbt; discriminate).
    unfold Counter.branch_target. rewrite Hop.
    rewrite conditional_assignment_fire by (vm_compute; discriminate).
    unfold Counter.alu_result, Counter.alu_table. rewrite Hop. cbn [enum_mux].
    change (3 =? Counter.OP.INC) with false. change (3 =? Counter.OP.DEC) with false.
    change (3 =? Counter.OP.JUMP) with true. cbv iota.
    rewrite !truncate_idem by width. rewrite Hdpc, counter_inst_imm_signed, Hd.
    unfold add. change Counter.WIDTH with 8. rewrite truncate_mod by lia.
    apply Zplus_mod_idemp_r. }
  assert (Hd2 : Counter.d_inst s2 = 0).
  { subst s2. cbn [Counter.step Counter.d_inst]. unfold Counter.d_inst_next.
    rewrite conditional_assignment_fire by (rewrite Hbt; discriminate).
    reflexivity. }
  assert (Hc2 : Counter.counter s2 = Counter.counter s1).
  { subst s2. cbn [Counter.step Counter.counter]. unfold Counter.counter_next.
    apply conditional_assignment_skip. rewrite Hop. reflexivity. }
  assert (Hop2 : Counter.inst_op s2 = 0).
  { unfold Counter.inst_op. rewrite Hd2. reflexivity. }
  repeat split; try assumption.
  - rewrite <- Hc2. subst s3. cbn [Counter.step Counter.counter].
    unfold Counter.counter_next. apply conditional_assignment_skip.
    rewrite Hop2. reflexivity.
  - subst s3. cbn [Counter.step Counter.pc]. unfold Counter.pc_next.
    rewrite conditional_assignment_skip
      by (unfold Counter.branch_taken; rewrite Hop2; reflexivity).
    rewrite conditional_assignment_fire by discriminate.
    apply truncate_mod. width.
Qed.

Lemma counter_jump_transfers_control_witness :
  Counter.pc (Counter.step (Counter.step Counter.at_jump_fetch tt) tt) = 7.
Proof.
  pose proof (counter_jump_transfers_control Counter.at_jump_fetch) as H.
  cbv zeta in H. destruct H as (H & _).
  - fits_concrete.
  - unfold mem_fits, Counter.at_jump_fetch.
    change (Counter.imem (final Counter.step Counter.reset (repeat tt 4)))
      with Counter.imem_init.
    unfold Counter.imem_init. cbn [list_to_map foldr uncurry].
    repeat (apply map_Forall_insert_2; [split; fits_concrete |]).
    apply map_Forall_empty.
  - vm_compute. reflexivity.
  - vm_compute. reflexivity.
  - rewrite H. vm_compute. reflexivity.
Defined.

(** ** The two stage ALU core, instruction by instruction *)

Lemma truncate_sub (w a b : Z) :
  0 <= w -> truncate w (sub w a b) = (a - b) mod 2 ^ w.
Proof.
  intros Hw. unfold sub. rewrite truncate_narrow by assumption.
  now apply truncate_mod.
Qed.

Lemma alu_result_execute (s : Alu.state) :
  fits 16 (Alu.x_alu_in1 s) -> fits 16 (Alu.x_alu_in2 s) ->
  Alu.alu_result s = Alu.execute (Alu.x_ctrl_alu_op s) (Alu.x_alu_in1 s) (Alu.x_alu_in2 s).
Proof.
  intros H1 H2. unfold Alu.alu_result, Alu.alu_table, Alu.execute.
  change Alu.WIDTH with 16. cbn [enum_mux].
  destruct (Alu.x_ctrl_alu_op s =? Alu.OP.ADD); [apply truncate_mod; lia |].
  destruct (Alu.x_ctrl_alu_op s =? Alu.OP.SUB); [apply truncate_sub; lia |].
  destruct (Alu.x_ctrl_alu_op s =? Alu.OP.XOR);
    [apply truncate_id; [lia | apply lxor_fits; [lia | assumption | assumption]] |].
  destruct (Alu.x_ctrl_alu_op s =? Alu.OP.OR);
    [apply truncate_id; [lia | apply lor_fits; [lia | assumption | assumption]] |].
  destruct (Alu.x_ctrl_alu_op s =? Alu.OP.AND);
    [apply truncate_id; [lia | apply land_fits; [lia | assumption | assumption]] |].
  reflexivity.
Qed.

Lemma alu3_result_execute (s : Alu3.state) :
  fits 16 (Alu3.in1 s) -> fits 16 (Alu3.in2 s) ->
  Alu3.alu_result s = Alu3.execute (Alu3.op_1 s) (Alu3.in1 s) (Alu3.in2 s).
Proof.
  intros H1 H2. unfold Alu3.alu_result, Alu3.alu_table, Alu3.execute.
  cbn [enum_mux].
  destruct (Alu3.op_1 s =? Alu3.ALUOp.ADD); [apply truncate_mod; lia |].
  destruct (Alu3.op_1 s =? Alu3.ALUOp.SUB); [apply truncate_sub; lia |].
  destruct (Alu3.op_1 s =? Alu3.ALUOp.XOR);
    [apply truncate_id; [lia | apply lxor_fits; [lia | assumption | assumption]] |].
  destruct (Alu3.op_1 s =? Alu3.ALUOp.OR);
    [apply truncate_id; [lia | apply lor_fits; [lia | assumption | assumption]] |].
  destruct (Alu3.op_1 s =? Alu3.ALUOp.AND);
    [apply truncate_id; [lia | apply land_fits; [lia | assumption | assumption]] |].
  reflexivity.
Qed.

(** X4: The ALU of both ALU designs computes on 16 bits: ADD and SUB wrap modulo
    [2 ^ 16] (a difference below zero comes out as its two's complement),
    XOR, OR and AND are exact, and every other opcode gives 0. *)
Theorem alu_computes_modulo_width :
  (forall s : Alu.state,
      fits 16 (Alu.x_alu_in1 s) -> fits 16 (Alu.x_alu_in2 s) ->
      Alu.alu_result s
        = Alu.execute (Alu.x_ctrl_alu_op s) (Alu.x_alu_in1 s) (Alu.x_alu_in2 s)) /\
  (forall s : Alu3.state,
      fits 16 (Alu3.in1 s) -> fits 16 (Alu3.in2 s) ->
      Alu3.alu_result s = Alu3.execute (Alu3.op_1 s) (Alu3.in1 s) (Alu3.in2 s)).
Proof. split; [exact alu_result_execute | exact alu3_result_execute]. Qed.

Lemma alu_computes_modulo_width_witness :
  Alu.alu_result Alu.at_first_add = 3 /\
  Alu3.alu_result Alu3.at_double_producer = 6.
Proof.
  destruct alu_computes_modulo_width as [HA H3]. split.
  - rewrite (HA Alu.at_first_add); [vm_compute; reflexivity | fits_concrete ..].
  - rewrite (H3 Alu3.at_double_producer); [vm_compute; reflexivity | fits_concrete ..].
Defined.

Lemma alu_nop_cases (s : Alu.state) (stall : Z) :
  Alu.nop s stall = 0 \/ Alu.nop s stall = 1.
Proof. apply truncate_1_cases. Qed.

(** X5: Which decoded instructions reach execute as a register write or as a
    branch in [pipelined-alu.py]: the write enable of the next cycle is high
    exactly for a live (neither stalled nor squashed) register instruction
    with a destination other than 0; the branch flag of the next cycle is
    high exactly for a live JUMP, which never enables a write. *)
Theorem alu_control_signals (s : Alu.state) (stall : Z) :
  let op := slice 12 16 (Alu.d_inst s) in
  let rd := slice 8 12 (Alu.d_inst s) in
  let s' := Alu.step s stall in
  Alu.reg_write_enable s'
    = (if (Alu.nop s stall =? 0) && Alu.register_op op && negb (rd =? 0)
       then 1 else 0) /\
  Alu.branch_taken s'
    = (if (Alu.nop s stall =? 0) && (op =? Alu.OP.JUMP) then 1 else 0) /\
  (Alu.branch_taken s' = 1 -> Alu.reg_write_enable s' = 0).
Proof.
  intros op rd s'.
  assert (Hrd : 0 <= rd < 16) by exact (slice_fits 8 12 _ ltac:(lia)).
  assert (Hw : Alu.reg_write_enable s'
    = (if (Alu.nop s stall =? 0) && Alu.register_op op && negb (rd =? 0)
       then 1 else 0)).
  { subst s'. unfold Alu.reg_write_enable.
    cbn [Alu.step Alu.x_ctrl_write Alu.x_rd].
    unfold Alu.x_ctrl_write_next, Alu.x_rd_next, Alu.ctrl_write, Alu.inst_c,
      Alu.inst_op, Alu.ctrl_write_table, Alu.register_op, mux.
    fold op rd.
    destruct (alu_nop_cases s stall) as [-> | ->]; cbn [Z.eqb andb]; [| reflexivity].
    cbn [enum_mux].
    destruct (rd =? 0) eqn:Erd.
    - apply Z.eqb_eq in Erd. rewrite Erd, andb_false_r. unfold ne_wire.
      cbn [Z.eqb truncate]. now rewrite Z.land_0_r.
    - rewrite andb_true_r. apply Z.eqb_neq in Erd.
      rewrite (truncate_id 4 rd) by (lia || (unfold fits; change (2 ^ 4) with 16; lia)).
      unfold ne_wire. apply Z.eqb_neq in Erd. rewrite Erd.
      destruct (op =? Alu.OP.ADD); [reflexivity |].
      destruct (op =? Alu.OP.SUB); [reflexivity |].
      destruct (op =? Alu.OP.XOR); [reflexivity |].
      destruct (op =? Alu.OP.OR); [reflexivity |].
      destruct (op =? Alu.OP.AND); reflexivity. }
  assert (Hb : Alu.branch_taken s'
    = (if (Alu.nop s stall =? 0) && (op =? Alu.OP.JUMP) then 1 else 0)).
  { subst s'. unfold Alu.branch_taken. cbn [Alu.step Alu.x_ctrl_branch].
    unfold Alu.x_ctrl_branch_next, Alu.ctrl_branch, Alu.inst_op,
      Alu.ctrl_branch_table, mux.
    fold op.
    destruct (alu_nop_cases s stall) as [-> | ->]; cbn [Z.eqb andb]; [| reflexivity].
    cbn [enum_mux]. destruct (op =? Alu.OP.JUMP); reflexivity. }
  split; [exact Hw |]. split; [exact Hb |].
  rewrite Hw, Hb. unfold Alu.register_op.
  destruct (Alu.nop s stall =? 0); cbn [andb]; [| discriminate].
  destruct (op =? Alu.OP.JUMP) eqn:E; [| discriminate].
  apply Z.eqb_eq in E. rewrite E. reflexivity.
Qed.

Lemma alu_control_signals_witness :
  Alu.reg_write_enable (Alu.step Alu.at_jump_decode 0) = 0.
Proof.
  apply (alu_control_signals Alu.at_jump_decode 0). vm_compute. reflexivity.
Defined.

Lemma alu_write_enable_one (s : Alu.state) :
  Alu.x_ctrl_write s = 1 -> Alu.x_rd s <> 0 -> Alu.reg_write_enable s = 1.
Proof.
  intros Hw Hrd. unfold Alu.reg_write_enable, ne_wire.
  apply Z.eqb_neq in Hrd. now rewrite Hw, Hrd.
Qed.

(** With forwarding, the operand staged for register [r] is what the register
    file holds for [r] once the current cycle has committed. *)
Lemma alu_forward_value (s : Alu.state) (r : Z) :
  Alu.well_formed s ->
  (Alu.x_rd s = r -> r <> 0 -> Alu.x_ctrl_write s = 1) ->
  conditional_assignment Alu.WIDTH
    [ (Z.land (eq_wire (Alu.x_rd s) r) (ne_wire r 0), Alu.alu_result s);
      (otherwise, mem_read (Alu.rf s) r) ] 0
  = mem_read (Alu.rf_next s) r.
Proof.
  intros (Hr & Hi & Hrf) Hfw.
  assert (Hread : truncate Alu.WIDTH (mem_read (Alu.rf s) r) = mem_read (Alu.rf s) r).
  { apply truncate_id; [width |]. now apply (mem_read_fits 4). }
  unfold Alu.rf_next.
  destruct (Z.eq_dec (Alu.x_rd s) r) as [E | E].
  - destruct (Z.eq_dec r 0) as [Z0 | Z0].
    + rewrite conditional_assignment_skip
        by (unfold ne_wire; rewrite Z0; apply Z.land_0_r).
      rewrite conditional_assignment_fire by discriminate.
      rewrite Hread.
      assert (En : Alu.reg_write_enable s = 0)
        by (apply alu_no_write; congruence).
      now rewrite En, mem_write_disabled.
    + rewrite conditional_assignment_fire
        by (unfold eq_wire, ne_wire; rewrite E, Z.eqb_refl;
            apply Z.eqb_neq in Z0; rewrite Z0; discriminate).
      rewrite alu_result_truncated.
      rewrite (alu_write_enable_one s) by (auto; congruence).
      rewrite E. symmetry. now apply mem_read_write_eq.
  - rewrite conditional_assignment_skip
      by (unfold eq_wire; apply Z.eqb_neq in E; now rewrite E).
    rewrite conditional_assignment_fire by discriminate.
    rewrite Hread. symmetry. now apply mem_read_write_ne.
Qed.

(** X6: A register instruction of [pipelined-alu.py] does what the docstring
    says, [rd <- (op rs1 rs2)].  When it is decoded live, and no slot that
    lacks a write enable sits in execute with a destination equal to one of
    its sources, its operands are the source registers as they stand once
    the older instruction has committed, one cycle later the ALU holds
    [op rs1 rs2], and the commit of that cycle stores it in [rd] (unless
    [rd] is 0) and changes no other register. *)
Theorem alu_register_instruction_retires (s : Alu.state) (stall' : Z) :
  Alu.well_formed s -> Alu.branch_taken s = 0 ->
  let op := slice 12 16 (Alu.d_inst s) in
  let rd := slice 8 12 (Alu.d_inst s) in
  let rs2 := slice 4 8 (Alu.d_inst s) in
  let rs1 := slice 0 4 (Alu.d_inst s) in
  Alu.register_op op = true ->
  (Alu.x_rd s = rs1 -> rs1 <> 0 -> Alu.x_ctrl_write s = 1) ->
  (Alu.x_rd s = rs2 -> rs2 <> 0 -> Alu.x_ctrl_write s = 1) ->
  let s1 := Alu.step s 0 in
  let s2 := Alu.step s1 stall' in
  let v := Alu.execute op (mem_read (Alu.rf s1) rs1) (mem_read (Alu.rf s1) rs2) in
  Alu.x_alu_in1 s1 = mem_read (Alu.rf s1) rs1 /\
  Alu.x_alu_in2 s1 = mem_read (Alu.rf s1) rs2 /\
  Alu.alu_result s1 = v /\
  (rd <> 0 -> mem_read (Alu.rf s2) rd = v) /\
  (forall r, r <> rd -> mem_read (Alu.rf s2) r = mem_read (Alu.rf s1) r).
Proof.
  intros Hwf Hb op rd rs2 rs1 Hop Hf1 Hf2 s1 s2 v.
  pose proof (alu_decode_live s 0 eq_refl Hb) as Hn.
  assert (Hopr : 0 <= op < 16) by exact (slice_fits 12 16 _ ltac:(lia)).
  assert (Hrdr : 0 <= rd < 16) by exact (slice_fits 8 12 _ ltac:(lia)).
  assert (Hj : op <> Alu.OP.JUMP).
  { intros E. rewrite E in Hop. discriminate Hop. }
  pose proof (alu_not_jump s 0 Hn Hj) as Hc.
  assert (Ha : Alu.inst_a s 0 = rs1) by (unfold Alu.inst_a, mux; now rewrite Hn).
  assert (Hbb : Alu.inst_b s 0 = rs2) by (unfold Alu.inst_b, mux; now rewrite Hn).
  assert (Hcc : Alu.inst_c s 0 = rd) by (unfold Alu.inst_c, mux; now rewrite Hn).
  assert (Hio : Alu.inst_op s 0 = op) by (unfold Alu.inst_op, mux; now rewrite Hn).
  assert (H1 : Alu.x_alu_in1 s1 = mem_read (Alu.rf s1) rs1).
  { subst s1. cbn [Alu.step Alu.x_alu_in1 Alu.rf]. unfold Alu.x_alu_in1_next.
    rewrite conditional_assignment_skip by exact Hc.
    unfold Alu.forward_a. rewrite Ha.
    rewrite <- (alu_forward_value s rs1 Hwf Hf1). reflexivity. }
  assert (H2 : Alu.x_alu_in2 s1 = mem_read (Alu.rf s1) rs2).
  { subst s1. cbn [Alu.step Alu.x_alu_in2 Alu.rf]. unfold Alu.x_alu_in2_next.
    rewrite conditional_assignment_skip by exact Hc.
    unfold Alu.forward_b. rewrite Hbb.
    rewrite <- (alu_forward_value s rs2 Hwf Hf2). reflexivity. }
  assert (Hop1 : Alu.x_ctrl_alu_op s1 = op).
  { subst s1. cbn [Alu.step Alu.x_ctrl_alu_op].
    unfold Alu.x_ctrl_alu_op_next, Alu.ctrl_alu_op, Alu.ctrl_alu_op_table.
    rewrite Hio. cbn [enum_mux]. apply Z.eqb_neq in Hj. rewrite Hj.
    rewrite truncate_idem by lia. apply truncate_id; [lia | exact Hopr]. }
  assert (Hw1 : Alu.x_ctrl_write s1 = 1).
  { subst s1. cbn [Alu.step Alu.x_ctrl_write].
    unfold Alu.x_ctrl_write_next, Alu.ctrl_write, Alu.ctrl_write_table.
    rewrite Hio. cbn [enum_mux]. unfold Alu.register_op in Hop.
    destruct (op =? Alu.OP.ADD); [reflexivity |].
    destruct (op =? Alu.OP.SUB); [reflexivity |].
    destruct (op =? Alu.OP.XOR); [reflexivity |].
    destruct (op =? Alu.OP.OR); [reflexivity |].
    destruct (op =? Alu.OP.AND); [reflexivity | discriminate Hop]. }
  assert (Hrd1 : Alu.x_rd s1 = rd).
  { subst s1. cbn [Alu.step Alu.x_rd]. unfold Alu.x_rd_next. rewrite Hcc.
    apply truncate_id; [lia | exact Hrdr]. }
  pose proof (alu_step_well_formed s 0 Hwf) as Hwf1. fold s1 in Hwf1.
  assert (Hv : Alu.alu_result s1 = v).
  { destruct Hwf1 as (Hr1 & _ & _). unfold Alu.registers in Hr1. split_fits Hr1.
    rewrite alu_result_execute by assumption.
    subst v. now rewrite Hop1, H1, H2. }
  repeat split; try assumption.
  - intros Hnz. subst s2. cbn [Alu.step Alu.rf]. unfold Alu.rf_next.
    rewrite alu_write_enable_one by (assumption || congruence).
    rewrite Hrd1, Hv. now apply mem_read_write_eq.
  - intros r Hr. subst s2. cbn [Alu.step Alu.rf]. unfold Alu.rf_next.
    rewrite Hrd1. apply mem_read_write_ne. congruence.
Qed.

Lemma alu_register_instruction_retires_witness :
  mem_read (Alu.rf (Alu.step (Alu.step Alu.at_dependent_add 0) 0)) 3 = 6.
Proof.
  pose proof (alu_register_instruction_retires Alu.at_dependent_add 0) as H.
  cbv zeta in H.
  destruct H as (_ & _ & _ & H & _).
  - apply alu_step_well_formed, alu_step_well_formed. split; [| split].
    + unfold Alu.registers. build_fits; fits_concrete.
    + unfold mem_fits. cbn [Alu.imem]. unfold Alu.dependent_program.
      cbn [list_to_map foldr uncurry].
      repeat (apply map_Forall_insert_2; [split; fits_concrete |]).
      apply map_Forall_empty.
    + exact (proj2 (proj2 alu_reset_well_formed)).
  - vm_compute. reflexivity.
  - vm_compute. reflexivity.
  - intros _ _. vm_compute. reflexivity.
  - intros _ _. vm_compute. reflexivity.
  - specialize (H ltac:(vm_compute; discriminate)).
    etransitivity; [exact H | vm_compute; reflexivity].
Defined.

(** X7: A JUMP fetched from address [p] of [pipelined-alu.py] does what the
    docstring says, [pc <- (add pc immediate)]: with no stall, and the
    instruction ahead of it not a taken branch, the program counter is
    [p + immediate] modulo [2 ^ 16] three cycles after the fetch.  The jump
    writes no register, and the fetch register is loaded with the NOP
    [0x1000] in its execute cycle. *)
Theorem alu_jump_transfers_control (s0 : Alu.state) :
  Alu.well_formed s0 -> Alu.branch_taken s0 = 0 ->
  let w := mem_read (Alu.imem s0) (Alu.pc s0) in
  slice 12 16 w = Alu.OP.JUMP ->
  let s1 := Alu.step s0 0 in
  Alu.branch_taken s1 = 0 ->
  let s2 := Alu.step s1 0 in
  let s3 := Alu.step s2 0 in
  Alu.branch_taken s2 = 1 /\
  Alu.branch_target s2 = (Alu.pc s0 + slice 0 12 w) mod 2 ^ 16 /\
  Alu.pc s3 = (Alu.pc s0 + slice 0 12 w) mod 2 ^ 16 /\
  Alu.rf s3 = Alu.rf s2 /\
  Alu.d_inst s3 = 0x1000.
Proof.
  intros Hwf Hb0 w Hj s1 Hb1 s2 s3.
  destruct Hwf as (Hr & Hi & Hrf). unfold Alu.registers in Hr. split_fits Hr.
  assert (Hw : fits 16 w) by (apply (mem_read_fits 16 16); [lia | assumption]).
  assert (Hd : Alu.d_inst s1 = w).
  { subst s1. cbn [Alu.step Alu.d_inst]. unfold Alu.d_inst_next.
    rewrite conditional_assignment_skip by exact Hb0.
    rewrite conditional_assignment_fire by discriminate.
    apply truncate_id; [width | exact Hw]. }
  assert (Hdpc : Alu.d_pc s1 = Alu.pc s0).
  { subst s1. cbn [Alu.step Alu.d_pc]. unfold Alu.d_pc_next.
    apply truncate_id; [width | assumption]. }
  pose proof (alu_decode_live s1 0 eq_refl Hb1) as Hn.
  assert (Hio : Alu.inst_op s1 0 = Alu.OP.JUMP)
    by (unfold Alu.inst_op, mux; now rewrite Hn, Hd).
  assert (Hcb : Alu.ctrl_branch s1 0 = 1)
    by (unfold Alu.ctrl_branch; now rewrite Hio).
  assert (Hbt : Alu.branch_taken s2 = 1).
  { subst s2. unfold Alu.branch_taken. cbn [Alu.step Alu.x_ctrl_branch].
    unfold Alu.x_ctrl_branch_next. now rewrite Hcb. }
  assert (Hin1 : Alu.x_alu_in1 s2 = Alu.pc s0).
  { subst s2. cbn [Alu.step Alu.x_alu_in1]. unfold Alu.x_alu_in1_next.
    rewrite conditional_assignment_fire by (rewrite Hcb; discriminate).
    rewrite Hdpc. apply truncate_id; [width | assumption]. }
  assert (Hin2 : Alu.x_alu_in2 s2 = slice 0 12 w).
  { subst s2. cbn [Alu.step Alu.x_alu_in2]. unfold Alu.x_alu_in2_next.
    rewrite conditional_assignment_fire by (rewrite Hcb; discriminate).
    unfold Alu.inst_imm, zero_extended. rewrite Hd.
    apply truncate_id; [width |].
    apply (fits_weaken 12); [unfold Alu.WIDTH; lia |].
    exact (slice_fits 0 12 _ ltac:(lia)). }
  assert (Hop : Alu.x_ctrl_alu_op s2 = Alu.OP.ADD).
  { subst s2. cbn [Alu.step Alu.x_ctrl_alu_op].
    unfold Alu.x_ctrl_alu_op_next, Alu.ctrl_alu_op. now rewrite Hio. }
  assert (Hres : Alu.alu_result s2 = (Alu.pc s0 + slice 0 12 w) mod 2 ^ 16).
  { unfold Alu.alu_result, Alu.alu_table. rewrite Hop, Hin1, Hin2. cbn [enum_mux].
    change (Alu.OP.ADD =? Alu.OP.ADD) with true. cbv iota.
    apply truncate_mod. width. }
  assert (Hen : Alu.reg_write_enable s2 = 0).
  { subst s2. unfold Alu.reg_write_enable. cbn [Alu.step Alu.x_ctrl_write].
    unfold Alu.x_ctrl_write_next, Alu.ctrl_write. rewrite Hio. reflexivity. }
  assert (Htg : Alu.branch_target s2 = (Alu.pc s0 + slice 0 12 w) mod 2 ^ 16).
  { unfold Alu.branch_target. now rewrite alu_result_truncated. }
  repeat split; try assumption.
  - subst s3. cbn [Alu.step Alu.pc]. unfold Alu.pc_next.
    rewrite conditional_assignment_skip by reflexivity.
    rewrite conditional_assignment_fire by (rewrite Hbt; discriminate).
    rewrite <- Htg. unfold Alu.branch_target. apply truncate_idem. width.
  - subst s3. cbn [Alu.step Alu.rf]. unfold Alu.rf_next. now rewrite Hen.
  - subst s3. cbn [Alu.step Alu.d_inst]. unfold Alu.d_inst_next.
    rewrite conditional_assignment_fire by (rewrite Hbt; discriminate).
    reflexivity.
Qed.

Lemma alu_jump_transfers_control_witness :
  Alu.pc (Alu.step (Alu.step (Alu.step Alu.at_jump_fetch 0) 0) 0) = 9.
Proof.
  pose proof (alu_jump_transfers_control Alu.at_jump_fetch) as H.
  cbv zeta in H. destruct H as (_ & _ & H & _).
  - apply alu_step_well_formed, alu_step_well_formed, alu_reset_well_formed.
  - vm_compute. reflexivity.
  - vm_compute. reflexivity.
  - vm_compute. reflexivity.
  - etransitivity; [exact H | vm_compute; reflexivity].
Defined.

(** X8: With no branch taken, the program counter of [pipelined-alu.py] counts
    the cycles in which [stall] is low: after any input sequence it is the
    initial value plus the number of such cycles, modulo [2 ^ 16]. *)
Theorem alu_pc_counts_unstalled_cycles (stalls : list Z) (s : Alu.state) :
  fits 16 (Alu.pc s) -> Alu.straight_line s stalls ->
  Alu.pc (final Alu.step s stalls) = (Alu.pc s + Alu.advancing stalls) mod 2 ^ 16.
Proof.
  revert s. induction stalls as [| stall rest IH]; intros s Hpc Hsl.
  - unfold final, Alu.advancing. cbn [fold_left List.filter length Z.of_nat].
    rewrite Z.add_0_r. symmetry. now apply Z.mod_small.
  - destruct Hsl as [Hb Hsl]. rewrite final_cons.
    assert (Hstep : Alu.pc (Alu.step s stall)
                    = (Alu.pc s + (if stall =? 0 then 1 else 0)) mod 2 ^ 16).
    { cbn [Alu.step Alu.pc]. unfold Alu.pc_next.
      destruct (stall =? 0) eqn:E.
      - apply Z.eqb_eq in E.
        rewrite conditional_assignment_skip by exact E.
        rewrite conditional_assignment_skip by exact Hb.
        rewrite conditional_assignment_fire by discriminate.
        apply truncate_mod. width.
      - apply Z.eqb_neq in E.
        rewrite conditional_assignment_fire by exact E.
        rewrite Z.add_0_r. apply truncate_mod. width. }
    rewrite IH; [| rewrite Hstep; apply Z.mod_pos_bound; lia | exact Hsl].
    rewrite Hstep, Zplus_mod_idemp_l. f_equal.
    unfold Alu.advancing. cbn [List.filter].
    destruct (stall =? 0); cbn [length]; lia.
Qed.

Lemma alu_pc_counts_unstalled_cycles_witness :
  Alu.pc (final Alu.step Alu.reset [0; 1; 0; 1]) = 2.
Proof.
  etransitivity.
  - apply (alu_pc_counts_unstalled_cycles [0; 1; 0; 1] Alu.reset).
    + fits_concrete.
    + vm_compute. repeat split.
  - vm_compute. reflexivity.
Defined.

(** ** The three stage ALU, instruction by instruction *)

(** With forwarding from execute and write-back, the operand staged for
    register [r] is what the register file holds for [r] once the two
    instructions in flight have committed. *)
Lemma alu3_forward_value (s : Alu3.state) (i j : Alu3.inputs) (r : Z) :
  Alu3.well_formed s ->
  (Alu3.c_addr_1 s = r -> Alu3.write_1 s = 1) ->
  (Alu3.c_addr_1 s <> r -> Alu3.c_addr_2 s = r -> Alu3.write_2 s = 1) ->
  conditional_assignment 16
    [ (eq_wire (Alu3.c_addr_1 s) r, Alu3.alu_result s);
      (eq_wire (Alu3.c_addr_2 s) r, Alu3.out s);
      (otherwise, mem_read (Alu3.rf s) r) ] 0
  = mem_read (Alu3.rf (Alu3.step (Alu3.step s i) j)) r.
Proof.
  intros (Hr & Hrf) Hf1 Hf2. unfold Alu3.registers in Hr. split_fits Hr.
  cbn [Alu3.step Alu3.rf]. unfold Alu3.rf_next at 1.
  cbn [Alu3.step Alu3.rf Alu3.c_addr_2 Alu3.out Alu3.write_2].
  unfold Alu3.c_addr_2_next, Alu3.out_next, Alu3.write_2_next, Alu3.rf_next.
  rewrite (truncate_id 4 (Alu3.c_addr_1 s)) by (lia || assumption).
  rewrite (truncate_id 1 (Alu3.write_1 s)) by (lia || assumption).
  rewrite alu3_result_truncated.
  destruct (Z.eq_dec (Alu3.c_addr_1 s) r) as [E1 | E1].
  - rewrite conditional_assignment_fire
      by (unfold eq_wire; rewrite E1, Z.eqb_refl; discriminate).
    rewrite alu3_result_truncated, (Hf1 E1), E1.
    symmetry. now apply mem_read_write_eq.
  - rewrite conditional_assignment_skip
      by (unfold eq_wire; apply Z.eqb_neq in E1; now rewrite E1).
    rewrite mem_read_write_ne by exact E1.
    destruct (Z.eq_dec (Alu3.c_addr_2 s) r) as [E2 | E2].
    + rewrite conditional_assignment_fire
        by (unfold eq_wire; rewrite E2, Z.eqb_refl; discriminate).
      rewrite (Hf2 E1 E2), E2, mem_read_write_eq by discriminate.
      apply truncate_id; [lia | assumption].
    + rewrite conditional_assignment_skip
        by (unfold eq_wire; apply Z.eqb_neq in E2; now rewrite E2).
      rewrite conditional_assignment_fire by discriminate.
      rewrite mem_read_write_ne by exact E2.
      apply truncate_id; [lia |]. now apply (mem_read_fits 4).
Qed.

(** X9: An instruction issued to [pipelined-alu-3stg.py] with [stall] low reads
    its two sources as the register file stands after the two older
    instructions in flight have committed, provided no slot without a write
    enable has a destination equal to one of its sources.  Its result
    [op a b] is in [out] two cycles after issue and in register [c] after the
    third cycle, which changes no other register.  The design writes for
    every opcode: one outside [ALUOp] stores 0. *)
Theorem alu3_instruction_retires (s : Alu3.state) (i j k : Alu3.inputs) :
  Alu3.well_formed s -> Alu3.stall i = 0 ->
  let a := Alu3.inst_a i in
  let b := Alu3.inst_b i in
  let c := Alu3.inst_c i in
  (Alu3.c_addr_1 s = a -> Alu3.write_1 s = 1) ->
  (Alu3.c_addr_1 s <> a -> Alu3.c_addr_2 s = a -> Alu3.write_2 s = 1) ->
  (Alu3.c_addr_1 s = b -> Alu3.write_1 s = 1) ->
  (Alu3.c_addr_1 s <> b -> Alu3.c_addr_2 s = b -> Alu3.write_2 s = 1) ->
  let s1 := Alu3.step s i in
  let s2 := Alu3.step s1 j in
  let s3 := Alu3.step s2 k in
  let v := Alu3.execute (Alu3.inst_op i)
             (mem_read (Alu3.rf s2) a) (mem_read (Alu3.rf s2) b) in
  Alu3.in1 s1 = mem_read (Alu3.rf s2) a /\
  Alu3.in2 s1 = mem_read (Alu3.rf s2) b /\
  Alu3.out s2 = v /\
  mem_read (Alu3.rf s3) c = v /\
  (forall r, r <> c -> mem_read (Alu3.rf s3) r = mem_read (Alu3.rf s2) r).
Proof.
  intros Hwf Hs a b c Ha1 Ha2 Hb1 Hb2 s1 s2 s3 v.
  assert (Hin1 : Alu3.in1 s1 = mem_read (Alu3.rf s2) a).
  { subst s2 s1. rewrite <- (alu3_forward_value s i j a Hwf Ha1 Ha2).
    cbn [Alu3.step Alu3.in1]. unfold Alu3.in1_next.
    now rewrite conditional_assignment_skip by exact Hs. }
  assert (Hin2 : Alu3.in2 s1 = mem_read (Alu3.rf s2) b).
  { subst s2 s1. rewrite <- (alu3_forward_value s i j b Hwf Hb1 Hb2).
    cbn [Alu3.step Alu3.in2]. unfold Alu3.in2_next.
    now rewrite conditional_assignment_skip by exact Hs. }
  assert (Hop : Alu3.op_1 s1 = Alu3.inst_op i).
  { subst s1. cbn [Alu3.step Alu3.op_1]. unfold Alu3.op_1_next, Alu3.inst_op.
    apply truncate_id; [lia | exact (slice_fits 12 16 _ ltac:(lia))]. }
  pose proof (alu3_step_well_formed s i Hwf) as Hwf1. fold s1 in Hwf1.
  assert (Hres : Alu3.alu_result s1 = v).
  { destruct Hwf1 as (Hr1 & _). unfold Alu3.registers in Hr1. split_fits Hr1.
    rewrite alu3_result_execute by assumption.
    subst v. now rewrite Hop, Hin1, Hin2. }
  assert (Hout : Alu3.out s2 = v).
  { subst s2. cbn [Alu3.step Alu3.out]. unfold Alu3.out_next.
    now rewrite alu3_result_truncated. }
  assert (Hc2 : Alu3.c_addr_2 s2 = c).
  { subst s2 s1. cbn [Alu3.step Alu3.c_addr_2 Alu3.c_addr_1].
    unfold Alu3.c_addr_2_next. cbn [Alu3.step Alu3.c_addr_1].
    unfold Alu3.c_addr_1_next.
    rewrite conditional_assignment_skip by exact Hs.
    rewrite conditional_assignment_fire by discriminate.
    rewrite truncate_idem by lia.
    apply truncate_id; [lia | exact (slice_fits 8 12 _ ltac:(lia))]. }
  assert (Hw2 : Alu3.write_2 s2 = 1).
  { subst s2 s1. cbn [Alu3.step Alu3.write_2]. unfold Alu3.write_2_next.
    cbn [Alu3.step Alu3.write_1]. unfold Alu3.write_1_next.
    rewrite conditional_assignment_skip by exact Hs. reflexivity. }
  repeat split; try assumption.
  - subst s3. cbn [Alu3.step Alu3.rf]. unfold Alu3.rf_next.
    rewrite Hc2, Hw2, Hout. now apply mem_read_write_eq.
  - intros r Hr. subst s3. cbn [Alu3.step Alu3.rf]. unfold Alu3.rf_next.
    rewrite Hc2. apply mem_read_write_ne. congruence.
Qed.

Lemma alu3_instruction_retires_witness :
  mem_read (Alu3.rf (Alu3.step (Alu3.step (Alu3.step Alu3.at_double_producer
              Alu3.read_r1) Alu3.bubble) Alu3.bubble)) 4 = 12.
Proof.
  pose proof (alu3_instruction_retires Alu3.at_double_producer
                Alu3.read_r1 Alu3.bubble Alu3.bubble) as H.
  cbv zeta in H. destruct H as (_ & _ & _ & H & _).
  - apply alu3_step_well_formed, alu3_step_well_formed, alu3_reset_well_formed.
  - reflexivity.
  - intros _. vm_compute. reflexivity.
  - intros _ _. vm_compute. reflexivity.
  - intros _. vm_compute. reflexivity.
  - intros _ _. vm_compute. reflexivity.
  - etransitivity; [exact H | vm_compute; reflexivity].
Defined.

(** ** Instruction fields *)

Lemma slice_div_mod (lo hi x : Z) :
  0 <= lo <= hi -> slice lo hi x = (x / 2 ^ lo) mod 2 ^ (hi - lo).
Proof.
  intros H. unfold slice. rewrite Z.land_ones by lia.
  now rewrite Z.shiftr_div_pow2 by lia.
Qed.

(** X10: The four decode slices of both ALU designs cut the 16 bit instruction
    word into its hexadecimal digits: each field is below 16, the word is
    [a + 16 b + 256 c + 4096 op], and the 12 bit immediate of a JUMP is
    [a + 16 b + 256 c]; two words with the same fields are the same word. *)
Theorem instruction_fields_partition_word (d : Z) :
  fits 16 d ->
  d = slice 0 4 d + 16 * slice 4 8 d + 256 * slice 8 12 d + 4096 * slice 12 16 d /\
  slice 0 12 d = slice 0 4 d + 16 * slice 4 8 d + 256 * slice 8 12 d /\
  (forall d', fits 16 d' ->
     slice 0 4 d' = slice 0 4 d -> slice 4 8 d' = slice 4 8 d ->
     slice 8 12 d' = slice 8 12 d -> slice 12 16 d' = slice 12 16 d -> d' = d).
Proof.
  assert (P : forall x, fits 16 x ->
    x = slice 0 4 x + 16 * slice 4 8 x + 256 * slice 8 12 x + 4096 * slice 12 16 x /\
    slice 0 12 x = slice 0 4 x + 16 * slice 4 8 x + 256 * slice 8 12 x).
  { intros x [H0 H1]. rewrite !slice_div_mod by lia.
    change (2 ^ 16) with 65536 in H1.
    change (2 ^ 0) with 1. change (2 ^ 4) with 16. change (2 ^ 8) with 256.
    change (2 ^ 12) with 4096. change (2 ^ (4 - 0)) with 16.
    change (2 ^ (8 - 4)) with 16. change (2 ^ (12 - 8)) with 16.
    change (2 ^ (16 - 12)) with 16. change (2 ^ (12 - 0)) with 4096.
    rewrite Z.div_1_r. split; Z.div_mod_to_equations; lia. }
  intros Hd. destruct (P d Hd) as [E1 E2]. repeat split; try assumption.
  intros d' Hd' Ha Hb Hc Hop. destruct (P d' Hd') as [E1' _].
  rewrite E1', E1. congruence.
Qed.

Lemma instruction_fields_partition_word_witness :
  0x1112 = slice 0 4 0x1112 + 16 * slice 4 8 0x1112 + 256 * slice 8 12 0x1112
           + 4096 * slice 12 16 0x1112.
Proof.
  refine (proj1 (instruction_fields_partition_word 0x1112 _)). fits_concrete.
Defined.

(** ** Register file and fetch registers *)

Lemma mem_read_write (m : gmap Z Z) (a v en r : Z) :
  mem_read (mem_write m a v en) r
  = if negb (en =? 0) && (r =? a) then v else mem_read m r.
Proof.
  unfold mem_write. destruct (en =? 0) eqn:E; cbn [negb andb]; [reflexivity |].
  destruct (Z.eqb_spec r a) as [-> | Hne].
  - unfold mem_read. now rewrite lookup_insert_eq.
  - unfold mem_read. rewrite lookup_insert_ne by congruence. reflexivity.
Qed.

(** X11: One cycle changes at most one register of the register file.  In
    [pipelined-alu.py] register [x_rd] takes [alu_result] when
    [reg_write_enable] is high; in [pipelined-alu-3stg.py] register
    [c_addr_2] takes [out] when [write_2] is high; every other register, and
    every register when the enable is low, reads as before the cycle. *)
Theorem register_file_changes_one_cell :
  (forall (s : Alu.state) (stall r : Z),
      mem_read (Alu.rf (Alu.step s stall)) r
      = if negb (Alu.reg_write_enable s =? 0) && (r =? Alu.x_rd s)
        then Alu.alu_result s else mem_read (Alu.rf s) r) /\
  (forall (s : Alu3.state) (i : Alu3.inputs) (r : Z),
      mem_read (Alu3.rf (Alu3.step s i)) r
      = if negb (Alu3.write_2 s =? 0) && (r =? Alu3.c_addr_2 s)
        then Alu3.out s else mem_read (Alu3.rf s) r).
Proof.
  split.
  - intros s stall r. cbn [Alu.step Alu.rf]. unfold Alu.rf_next.
    apply mem_read_write.
  - intros s i r. cbn [Alu3.step Alu3.rf]. unfold Alu3.rf_next.
    apply mem_read_write.
Qed.

(** X12: Unless a taken branch squashes the fetch, the two fetch registers stay
    paired: after a cycle [d_inst] is the instruction memory word at address
    [d_pc], in [pipelined-alu.py] whatever the stall input is, and in
    [counter.py]. *)
Theorem fetch_registers_stay_paired :
  (forall (s : Alu.state) (stall : Z),
      Alu.well_formed s -> Alu.branch_taken s = 0 ->
      Alu.d_pc (Alu.step s stall) = Alu.pc s /\
      Alu.d_inst (Alu.step s stall)
      = mem_read (Alu.imem (Alu.step s stall)) (Alu.d_pc (Alu.step s stall))) /\
  (forall s : Counter.state,
      Counter.well_formed s -> Counter.branch_taken s = 0 ->
      Counter.d_pc (Counter.step s tt) = Counter.pc s /\
      Counter.d_inst (Counter.step s tt)
      = mem_read (Counter.imem (Counter.step s tt)) (Counter.d_pc (Counter.step s tt))).
Proof.
  split.
  - intros s stall (Hr & Hi & _) Hb. unfold Alu.registers in Hr. split_fits Hr.
    assert (E : Alu.d_pc (Alu.step s stall) = Alu.pc s).
    { cbn [Alu.step Alu.d_pc]. unfold Alu.d_pc_next.
      apply truncate_id; [width | assumption]. }
    split; [exact E |]. rewrite E. cbn [Alu.step Alu.d_inst Alu.imem].
    unfold Alu.d_inst_next.
    rewrite conditional_assignment_skip by exact Hb.
    rewrite conditional_assignment_fire by discriminate.
    apply truncate_id; [width |]. now apply (mem_read_fits 16).
  - intros s (Hr & Hi) Hb. unfold Counter.registers in Hr. split_fits Hr.
    assert (E : Counter.d_pc (Counter.step s tt) = Counter.pc s).
    { cbn [Counter.step Counter.d_pc]. unfold Counter.d_pc_next.
      apply truncate_id; [width | assumption]. }
    split; [exact E |]. rewrite E. cbn [Counter.step Counter.d_inst Counter.imem].
    unfold Counter.d_inst_next.
    rewrite conditional_assignment_skip by exact Hb.
    rewrite conditional_assignment_fire by discriminate.
    apply truncate_id; [width |]. now apply (mem_read_fits 8).
Qed.

Lemma fetch_registers_stay_paired_witness :
  Alu.d_inst (Alu.step Alu.reset 1) = 0x1112 /\
  Counter.d_inst (Counter.step Counter.reset tt) = 0x40.
Proof.
  destruct fetch_registers_stay_paired as [HA HC]. split.
  - etransitivity.
    + apply (HA Alu.reset 1); [exact alu_reset_well_formed | reflexivity].
    + vm_compute. reflexivity.
  - etransitivity.
    + apply (HC Counter.reset); [exact counter_reset_well_formed | reflexivity].
    + vm_compute. reflexivity.
Defined.
